(** * Collection statistics of the MongoDB explorer

    A shallow embedding of [get_detailed_collection_stats]
    (src/updated_pipeline.py, lines 97-182) and of the "Analyze Field"
    action (src/updated_pipeline.py, lines 584-597; src/mongo.py, lines
    293-306), with the properties of the statistics they compute.

    Layout: the Python run time the code relies on ([Py]), the pymongo
    collaborator ([Mongo]), the two operations ([Explorer]), the sample
    collections used in examples ([Samples]), the vocabulary of the
    statements ([Report]), then the lemmas and the properties. *)

From Stdlib Require Import ZArith SpecFloat.
From stdpp Require Import base option list gmap strings pretty sorting.

Local Open Scope Z_scope.

(** ** The Python run time *)

Module Py.

(** An exception is represented by its message, which is what
    [f"Error: {e}"] prints. *)
Definition exn := string.

Inductive result (A : Type) : Type :=
  | Ok (a : A)
  | Raise (e : exn).
Arguments Ok {A} a.
Arguments Raise {A} e.

#[global] Instance result_ret : MRet result := λ A a, Ok a.
#[global] Instance result_bind : MBind result := λ A B f r,
  match r with
  | Ok a => f a
  | Raise e => Raise e
  end.
#[global] Instance result_fmap : FMap result := λ A B f r,
  match r with
  | Ok a => Ok (f a)
  | Raise e => Raise e
  end.

(** Values held by a document as pymongo decodes it with its default
    options.  [VInt] is Python's [int]
    (BSON int32), [VInt64] is [bson.int64.Int64], a subclass of [int];
    [VFloat] is a binary64 number, given as a [spec_float] that is valid
    for precision 53 and maximal exponent 1024.  [VOther] stands for the
    remaining BSON scalars ([ObjectId], [datetime], [bytes], [Decimal128],
    [Regex], ...), given by the name of their class and their string form,
    which together identify them. *)
#[local] Set Warnings "-register-all".
Inductive value : Type :=
  | VStr (s : string)
  | VInt (n : Z)
  | VInt64 (n : Z)
  | VFloat (f : spec_float)
  | VBool (b : bool)
  | VNone
  | VDict (d : list (string * value))
  | VList (l : list value)
  | VOther (class_name repr : string).

(** A document is a [dict]: field names with their values, in insertion
    order.  A lookup takes the first binding of a name. *)
Definition document := list (string * value).

(** [field in doc] *)
Definition contains (doc : document) (field : string) : bool :=
  bool_decide (field ∈ doc.*1).

(** [doc.get(field)], whose default is [None] *)
Fixpoint get (doc : document) (field : string) : value :=
  match doc with
  | [] => VNone
  | (k, v) :: doc' => if decide (k = field) then v else get doc' field
  end.

(** [doc.keys()] *)
Definition keys (doc : document) : list string := doc.*1.

(** [type(v).__name__] *)
Definition type_name (v : value) : string :=
  match v with
  | VStr _ => "str"
  | VInt _ => "int"
  | VInt64 _ => "Int64"
  | VFloat _ => "float"
  | VBool _ => "bool"
  | VNone => "NoneType"
  | VDict _ => "dict"
  | VList _ => "list"
  | VOther c _ => c
  end.

(** [isinstance(v, (dict, list))] *)
Definition is_dict_or_list (v : value) : bool :=
  match v with
  | VDict _ | VList _ => true
  | _ => false
  end.

(** *** Numbers *)

Definition prec : Z := 53.
Definition emax : Z := 1024.

(** [float(n)] for an integer within the range of binary64. *)
Definition float_of_int (n : Z) : spec_float :=
  binary_normalize prec emax n 0 false.

Definition is_infinity (f : spec_float) : bool :=
  match f with
  | S754_infinity _ => true
  | _ => false
  end.

(** [a / b] on two [int]s: the quotient rounded once to binary64.
    Python raises [ZeroDivisionError] on a zero divisor and
    [OverflowError] when the quotient exceeds the binary64 range. *)
Definition int_truediv (a b : Z) : result spec_float :=
  if b =? 0 then Raise "division by zero"
  else if a =? 0 then Ok (S754_zero (b <? 0))
  else
    let q := SFdiv prec emax
               (S754_finite (a <? 0) (Z.to_pos (Z.abs a)) 0)
               (S754_finite (b <? 0) (Z.to_pos (Z.abs b)) 0) in
    if is_infinity q then Raise "integer division result too large for a float"
    else Ok q.

(** [x * n] for a float [x] and a small integer literal [n]. *)
Definition float_mul_int (x : spec_float) (n : Z) : spec_float :=
  SFmul prec emax x (float_of_int n).

(** [f == n] for a float and an integer: an exact comparison. *)
Definition float_eq_int (f : spec_float) (n : Z) : bool :=
  match f with
  | S754_zero _ => n =? 0
  | S754_finite s m e =>
      let sm := if s then Z.neg m else Z.pos m in
      if 0 <=? e then n =? sm * 2 ^ e else n * 2 ^ (- e) =? sm
  | _ => false
  end.

(** The numeric reading of a value: [bool] is a subclass of [int]. *)
Inductive number : Type :=
  | NInt (n : Z)
  | NFloat (f : spec_float).

Definition as_number (v : value) : option number :=
  match v with
  | VInt n | VInt64 n => Some (NInt n)
  | VBool b => Some (NInt (if b then 1 else 0))
  | VFloat f => Some (NFloat f)
  | _ => None
  end.

Definition number_eq (x y : number) : bool :=
  match x, y with
  | NInt a, NInt b => a =? b
  | NFloat f, NFloat g => SFeqb f g
  | NFloat f, NInt n | NInt n, NFloat f => float_eq_int f n
  end.

(** [x == y] on hashable values.  Numbers compare by value across [int],
    [Int64], [bool] and [float]; a NaN equals nothing.  Dicts and lists
    are unhashable and never reach a set. *)
Definition py_eq (x y : value) : bool :=
  match as_number x, as_number y with
  | Some a, Some b => number_eq a b
  | Some _, None | None, Some _ => false
  | None, None =>
      match x, y with
      | VStr s, VStr t => bool_decide (s = t)
      | VNone, VNone => true
      | VOther c r, VOther c' r' => bool_decide (c = c') && bool_decide (r = r')
      | _, _ => false
      end
  end.

(** *** Builtins left to the run time

    The string form of a float, a dict or a list ([repr]), and the float
    arithmetic applied to the size metrics reported by the server, which
    are BSON numbers divided by a non-zero literal: on these neither
    [truediv] nor [round] raises.  The properties below hold whatever
    these builtins return. *)
Class Builtins := {
  repr : value → string;
  truediv : number → Z → number;
  round : number → Z → number
}.

(** [str(v)] *)
Definition str `{Builtins} (v : value) : string :=
  match v with
  | VStr s => s
  | VInt n | VInt64 n => pretty n
  | VBool b => if b then "True" else "False"
  | VNone => "None"
  | VOther _ r => r
  | VFloat _ | VDict _ | VList _ => repr v
  end.

(** *** Counting in a dict

    [if k in d: d[k] += 1 else: d[k] = 1], on a dict that keeps its
    insertion order. *)
Fixpoint incr (d : list (string * nat)) (k : string) : list (string * nat) :=
  match d with
  | [] => [(k, 1%nat)]
  | (k', n) :: d' =>
      if decide (k' = k) then (k', S n) :: d' else (k', n) :: incr d' k
  end.

(** [sorted(d.items(), key=lambda x: x[1], reverse=True)]: a stable sort
    in descending order of the count, which determines its result.  An
    item is placed before the first item of the sorted rest whose count
    is not greater than its own. *)
Fixpoint insert_desc (x : string * nat) (l : list (string * nat))
    : list (string * nat) :=
  match l with
  | [] => [x]
  | y :: l' =>
      if decide (y.2 ≤ x.2)%nat then x :: y :: l' else y :: insert_desc x l'
  end.

Fixpoint sorted_desc (items : list (string * nat)) : list (string * nat) :=
  match items with
  | [] => []
  | x :: items' => insert_desc x (sorted_desc items')
  end.

(** A loop whose body may raise, threading the value it builds. *)
Fixpoint for_each {A S : Type} (xs : list A) (body : S → A → result S)
    (s : S) : result S :=
  match xs with
  | [] => Ok s
  | x :: xs' => s' ← body s x; for_each xs' body s'
  end.

(** *** Sets

    [hash(v)] succeeds.  Of the values that pymongo decodes, a dict and a
    list have no hash, and neither have the instances of the three bson
    classes that define [__eq__] and leave [__hash__] out: [Decimal128],
    [Regex] and [Code]. *)
Definition hashable (v : value) : bool :=
  match v with
  | VDict _ | VList _ => false
  | VOther c _ => bool_decide (c ∉ ["Decimal128"; "Regex"; "Code"])
  | _ => true
  end.

(** The message of the [TypeError] raised when [v] is put in a set, as
    CPython words it up to version 3.13. *)
Definition unhashable_type (v : value) : exn :=
  "unhashable type: '" +:+ type_name v +:+ "'".

(** A hashable value joins a set unless an equal one is already there:
    every element object is distinct (each decoded document owns its
    values). *)
Definition set_insert (s : list value) (x : value) : list value :=
  if existsb (py_eq x) s then s else s ++ [x].

(** [s.add(x)]: the value is hashed first. *)
Definition set_add (s : list value) (x : value) : result (list value) :=
  if hashable x then Ok (set_insert s x) else Raise (unhashable_type x).

(** [set(values)] on the values of a generator, taken one by one. *)
Definition set_of (values : list value) : result (list value) :=
  for_each values set_add [].

End Py.

(** ** The collaborator: a pymongo database *)

Module Mongo.
Import Py.

(** The two filters the explorer passes to [count_documents]. *)
Inductive query : Type :=
  | NoFilter                      (* [{}] *)
  | FieldExists (field : string)  (* [{field: {"$exists": True}}] *).

(** The reply to the [collstats] command; any key may be absent. *)
Record collstats : Type := {
  stat_size : option number;
  stat_avgObjSize : option number;
  stat_storageSize : option number;
  stat_totalIndexSize : option number;
  stat_indexSizes : option (list (string * number))
}.

(** A collection handle.  [find] is the outcome of iterating an
    unfiltered [find()] cursor: the documents in natural order. *)
Record collection : Type := {
  count_documents : query → result Z;
  find : result (list document);
  distinct : string → result (list value)
}.

Record database : Type := {
  db_collection : string → collection;  (* [db[name]] *)
  command_collstats : string → result collstats
}.

(** [cursor.limit(n)] *)
Definition limit (n : nat) (cursor : result (list document))
    : result (list document) :=
  docs ← cursor; mret (take n docs).

End Mongo.

(** ** The explorer *)

Module Explorer.
Import Py Mongo.

Section Explorer.
Context `{Builtins}.

Record coverage_entry : Type := {
  count : nat;
  coverage_pct : spec_float
}.

(** The keys of [stats] that are set only under [if sample_docs:]. *)
Record field_stats : Type := {
  field_count : nat;
  field_coverage : gmap string coverage_entry;
  field_types : gmap string (list (string * nat));
  value_distributions : gmap string (list (string * nat));
  distinct_counts : gmap string nat
}.

Record stats : Type := {
  doc_count : Z;
  size_mb : number;
  avg_doc_size_kb : number;
  storage_size_mb : number;
  index_size_mb : number;
  index_count : nat;
  field_analysis : option field_stats
}.

(** [coll_stats.get(key, 0)] *)
Definition get_metric (m : option number) : number := default (NInt 0) m.

Definition number_gt_0 (x : number) : bool :=
  match x with
  | NInt n => 0 <? n
  | NFloat f => SFltb (S754_zero false) f
  end.

Section FieldAnalysis.
Variable sample_docs : list document.

(** Lines 119-121: the union of the key sets. *)
Definition all_fields : gset string :=
  foldl (λ fields doc, fields ∪ list_to_set (keys doc)) ∅ sample_docs.

(** [sum(1 for doc in sample_docs if field in doc)] *)
Definition presence (field : string) : nat :=
  length (filter (λ doc, contains doc field) sample_docs).

(** Lines 125-133. *)
Definition field_coverage_loop (fields : list string)
    : result (gmap string coverage_entry) :=
  for_each fields (λ field_coverage field,
    if decide (field ≠ "_id") then
      let field_count := presence field in
      q ← int_truediv (Z.of_nat field_count) (Z.of_nat (length sample_docs));
      let coverage_pct := float_mul_int q 100 in
      mret (<[field := {| count := field_count;
                          coverage_pct := coverage_pct |}]> field_coverage)
    else mret field_coverage) ∅.

(** Lines 139-146: the type names of one field, tallied. *)
Definition type_counts (field : string) : list (string * nat) :=
  foldl (λ counts doc,
    if contains doc field then incr counts (type_name (get doc field))
    else counts) [] sample_docs.

(** Lines 137-146: no field is skipped here. *)
Definition field_types_loop (fields : list string)
    : gmap string (list (string * nat)) :=
  foldl (λ field_types field, <[field := type_counts field]> field_types)
    ∅ fields.

(** Line 154. *)
Definition field_values (field : string) : list value :=
  (λ doc, get doc field) <$> filter (λ doc, contains doc field) sample_docs.

(** Lines 159-166. *)
Definition value_counts (values : list value) : list (string * nat) :=
  foldl (λ counts val, incr counts (str val)) [] values.

(** Line 169. *)
Definition sorted_values (values : list value) : list (string * nat) :=
  take 10 (sorted_desc (value_counts values)).

(** Lines 151-170: the test reads the first value only. *)
Definition value_distributions_loop (fields : list string)
    : gmap string (list (string * nat)) :=
  foldl (λ value_distributions field,
    if decide (field ≠ "_id") then
      match field_values field with
      | first :: _ =>
          if negb (is_dict_or_list first)
          then <[field := sorted_values (field_values field)]>
                 value_distributions
          else value_distributions
      | [] => value_distributions
      end
    else value_distributions) ∅ fields.

(** Line 178: the set raises on the first value without a hash. *)
Definition distinct_values (field : string) : result (list value) :=
  set_of ((λ doc, get doc field) <$>
          filter (λ doc, contains doc field
                         && negb (is_dict_or_list (get doc field)))
                 sample_docs).

(** Lines 175-179. *)
Definition distinct_counts_loop (fields : list string)
    : result (gmap string nat) :=
  for_each fields (λ distinct_counts field,
    if decide (field ≠ "_id") then
      distinct_values ← distinct_values field;
      mret (<[field := length distinct_values]> distinct_counts)
    else mret distinct_counts) ∅.

(** Lines 117-180, for a sample that is not empty.  The loops visit the
    set of names in the order [elements] lists them. *)
Definition analyse_fields : result field_stats :=
  let fields := elements all_fields in
  field_coverage ← field_coverage_loop fields;
  let field_types := field_types_loop fields in
  let value_distributions := value_distributions_loop fields in
  distinct_counts ← distinct_counts_loop fields;
  mret {| field_count := size all_fields;
          field_coverage := field_coverage;
          field_types := field_types;
          value_distributions := value_distributions;
          distinct_counts := distinct_counts |}.

End FieldAnalysis.

(** Lines 97-182. *)
Definition get_detailed_collection_stats (db : database)
    (collection_name : string) : result stats :=
  let collection := db_collection db collection_name in
  doc_count ← count_documents collection NoFilter;
  coll_stats ← command_collstats db collection_name;
  let size_mb :=
    round (truediv (get_metric (stat_size coll_stats)) (1024 * 1024)) 2 in
  let avg_doc_size_kb :=
    if number_gt_0 (get_metric (stat_avgObjSize coll_stats))
    then round (truediv (get_metric (stat_avgObjSize coll_stats)) 1024) 2
    else NInt 0 in
  let storage_size_mb :=
    round (truediv (get_metric (stat_storageSize coll_stats))
                   (1024 * 1024)) 2 in
  let index_size_mb :=
    round (truediv (get_metric (stat_totalIndexSize coll_stats))
                   (1024 * 1024)) 2 in
  let index_count := length (default [] (stat_indexSizes coll_stats)) in
  sample_docs ← limit 100 (find collection);
  field_analysis ←
    match sample_docs with
    | [] => mret None
    | _ :: _ => Some <$> analyse_fields sample_docs
    end;
  mret {| doc_count := doc_count;
          size_mb := size_mb;
          avg_doc_size_kb := avg_doc_size_kb;
          storage_size_mb := storage_size_mb;
          index_size_mb := index_size_mb;
          index_count := index_count;
          field_analysis := field_analysis |}.

(** Lines 257-264 under the handler of lines 239 and 752-753: the stats
    kept in the session and the message shown by [st.error], if any. *)
Definition on_collection_selected (db : database) (selected_collection : string)
    (collection_stats : option stats) : option stats * option string :=
  match get_detailed_collection_stats db selected_collection with
  | Ok new_stats => (Some new_stats, None)
  | Raise e => (collection_stats, Some ("Error: " +:+ e))
  end.

(** The figures shown by the "Analyze Field" button. *)
Record field_figures : Type := {
  coverage : number;
  documents_with_field : Z;
  unique_values : nat
}.

(** Lines 586-591 of updated_pipeline.py, 295-300 of mongo.py. *)
Definition analyze_field (collection : collection) (field_to_analyze : string)
    : result field_figures :=
  doc_count ← count_documents collection NoFilter;
  field_count ← count_documents collection (FieldExists field_to_analyze);
  coverage ←
    (if 0 <? doc_count
     then q ← int_truediv field_count doc_count;
          mret (NFloat (float_mul_int q 100))
     else mret (NInt 0));
  values ← distinct collection field_to_analyze;
  mret {| coverage := coverage;
          documents_with_field := field_count;
          unique_values := length values |}.

End Explorer.
End Explorer.

(** ** Sample collections *)

Module Samples.
Import Py Mongo Explorer.

(** Stand-ins for the builtins left to the run time.  The samples below
    hold no float and no composite value other than the empty dict, whose
    string form is given as Python prints it; their size metrics are not
    read. *)
Definition sample_builtins : Builtins := {|
  repr v := match v with
            | VDict [] => "{}"
            | VList [] => "[]"
            | _ => "<" +:+ type_name v +:+ ">"
            end;
  truediv x _ := x;
  round x _ := x
|}.

Definition oid (n : string) : value :=
  VOther "ObjectId" ("65f1c0de0000000000000" +:+ n).

Definition some_collstats : collstats :=
  {| stat_size := Some (NInt 4096);
     stat_avgObjSize := None;
     stat_storageSize := Some (NInt 8192);
     stat_totalIndexSize := Some (NInt 4096);
     stat_indexSizes := Some [("_id_", NInt 4096)] |}.

(** A database whose only collection serves [docs]; [distinct] lists the
    scalar values of a field, each once. *)
Definition serving (docs : list document) : database := {|
  db_collection _ := {|
    count_documents q :=
      Ok (Z.of_nat match q with
                   | NoFilter => length docs
                   | FieldExists field => presence docs field
                   end);
    find := Ok docs;
    distinct field :=
      Ok (foldl set_insert []
            ((λ doc, get doc field) <$>
             filter (λ doc, contains doc field
                            && negb (is_dict_or_list (get doc field)))
                    docs))
  |};
  command_collstats _ := Ok some_collstats
|}.

(** A database whose calls raise as given. *)
Definition failing (count : result Z) (stats : result collstats)
    (cursor : result (list document)) : database := {|
  db_collection _ := {|
    count_documents _ := count;
    find := cursor;
    distinct _ := Raise "not reached"
  |};
  command_collstats _ := stats
|}.

(** The three records of the scenario, with key sets [{_id,a,b}],
    [{_id,a}] and [{_id,a,b,c}]. *)
Definition three_records : list document :=
  [ [("_id", oid "001"); ("a", VInt 1); ("b", VStr "x")];
    [("_id", oid "002"); ("a", VInt 2)];
    [("_id", oid "003"); ("a", VInt 2); ("b", VStr "y"); ("c", VNone)] ].

(** A field that is a string in one record and a mapping in the next. *)
Definition string_then_mapping : list document :=
  [ [("_id", oid "001"); ("f", VStr "x")];
    [("_id", oid "002"); ("f", VDict [])] ].

(** A field whose values are the integer 1 and the string "1". *)
Definition one_and_one : list document :=
  [ [("_id", oid "001"); ("f", VInt 1)];
    [("_id", oid "002"); ("f", VStr "1")] ].

(** A record with a [Decimal128] price, which has no hash. *)
Definition priced : list document :=
  [ [("_id", oid "001"); ("price", VOther "Decimal128" "9.99")] ].

End Samples.

(** ** Vocabulary of the statements *)

Module Report.
Import Py Mongo Explorer.

(** The three calls of [get_detailed_collection_stats] to its collaborator
    return [n], [cs] and [docs]. *)
Definition serves (db : database) (name : string) (n : Z) (cs : collstats)
    (docs : list document) : Prop :=
  count_documents (db_collection db name) NoFilter = Ok n ∧
  command_collstats db name = Ok cs ∧
  find (db_collection db name) = Ok docs.

(** Line 178 can hash every value it meets in [docs]: the values of the
    fields other than [_id] that are no dict and no list. *)
Definition hashable_sample (docs : list document) : bool :=
  forallb (λ doc : document,
    forallb (λ field,
      bool_decide (field = "_id") || is_dict_or_list (get doc field)
      || hashable (get doc field)) (keys doc)) docs.

(** [s] holds one value for each class of equal values of [values], in
    the order in which the classes are first met. *)
Record holds_once (values s : list value) : Prop := {
  held_sublist : s `sublist_of` values;
  held_all : ∀ v, v ∈ values → v ∈ s ∨ ∃ y, y ∈ s ∧ py_eq v y;
  held_apart : ∀ i j x y, (i < j)%nat →
               s !! i = Some y → s !! j = Some x → py_eq x y = false
}.

(** [stats.get('field_count', 0)], as the page reads it (line 314). *)
Definition shown_field_count (st : stats) : nat :=
  default 0%nat (field_count <$> field_analysis st).

(** [k] occurs this many times in [l]. *)
Definition occurrences (k : string) (l : list string) : nat :=
  length (filter (k =.) l).

(** Counts in descending order. *)
Definition count_ge (x y : string * nat) : Prop := (y.2 ≤ x.2)%nat.

Definition zero : spec_float := S754_zero false.
Definition hundred : spec_float := float_of_int 100.

(** The coverage of [c] records out of [n] is computed without error and
    lies between 0 and 100. *)
Definition coverage_in_range (c n : nat) : bool :=
  match int_truediv (Z.of_nat c) (Z.of_nat n) with
  | Ok q => SFleb zero (float_mul_int q 100)
            && SFleb (float_mul_int q 100) hundred
  | Raise _ => false
  end.

(** The guard of lines 153 and 157. *)
Definition has_table (docs : list document) (field : string) : bool :=
  bool_decide (field ≠ "_id") &&
  match field_values docs field with
  | first :: _ => negb (is_dict_or_list first)
  | [] => false
  end.

(** The entry that line 130 stores for [field], given the quotient. *)
Definition entry (docs : list document) (field : string) (q : spec_float)
    : coverage_entry :=
  {| count := presence docs field; coverage_pct := float_mul_int q 100 |}.

(** What the four dicts of a field report hold for [sample_docs], key by
    key. *)
Record describes `{Builtins} (sample_docs : list document) (fa : field_stats)
    : Prop := {
  described_count : field_count fa = size (all_fields sample_docs);
  described_coverage : ∀ k,
    (k ∈ all_fields sample_docs ∧ k ≠ "_id" →
     ∃ q, int_truediv (Z.of_nat (presence sample_docs k))
                      (Z.of_nat (length sample_docs)) = Ok q ∧
          SFleb zero (float_mul_int q 100) = true ∧
          SFleb (float_mul_int q 100) hundred = true ∧
          field_coverage fa !! k = Some (entry sample_docs k q)) ∧
    (¬ (k ∈ all_fields sample_docs ∧ k ≠ "_id") →
     field_coverage fa !! k = None);
  described_types : ∀ k,
    field_types fa !! k
    = if decide (k ∈ all_fields sample_docs)
      then Some (type_counts sample_docs k) else None;
  described_distributions : ∀ k,
    value_distributions fa !! k
    = if decide (k ∈ all_fields sample_docs ∧ has_table sample_docs k)
      then Some (sorted_values (field_values sample_docs k)) else None;
  described_distinct : ∀ k,
    if decide (k ∈ all_fields sample_docs ∧ k ≠ "_id")
    then ∃ values, distinct_values sample_docs k = Ok values ∧
                   distinct_counts fa !! k = Some (length values)
    else distinct_counts fa !! k = None
}.

(** What a dict filled by [incr] from the keys [l] holds. *)
Record tallies (l : list string) (d : list (string * nat)) : Prop := {
  tally_NoDup : NoDup d.*1;
  tally_count : ∀ k n, (k, n) ∈ d → k ∈ l ∧ n = occurrences k l;
  tally_key : ∀ k, k ∈ l → (k, occurrences k l) ∈ d;
  tally_order : ∀ a b, [a; b] `sublist_of` d.*1 →
                ∃ l1 l2, l = l1 ++ a :: l2 ∧ b ∉ l1
}.


(** The statement "a field with a composite sampled value has no
    frequency table and a distinct count of 0". *)
Definition composite_excluded (sample_docs : list document)
    (fa : field_stats) (field : string) : Prop :=
  Exists (λ v, is_dict_or_list v) (field_values sample_docs field) →
  value_distributions fa !! field = None ∧
  distinct_counts fa !! field = Some 0%nat.


(** The statement "[_id] is a key of no part of the field report". *)
Definition id_never_reported (fa : field_stats) : Prop :=
  field_coverage fa !! "_id" = None ∧
  field_types fa !! "_id" = None ∧
  value_distributions fa !! "_id" = None ∧
  distinct_counts fa !! "_id" = None.

End Report.

(** ** Vocabulary of the further statements *)

Module Measures.
Import Py Mongo Explorer Report.

(** [c / n * 100] as line 129 computes it, for [0 < n] and a quotient
    within range. *)
Definition coverage_of (c n : nat) : spec_float :=
  match int_truediv (Z.of_nat c) (Z.of_nat n) with
  | Ok q => float_mul_int q 100
  | Raise _ => S754_nan
  end.

(** For a sample of [n] records, the coverage values of the counts [0] to
    [n] are ordered as the counts are, are positive from 1 on, and reach
    100 at [n] only. *)
Definition coverage_ordered (n : nat) : bool :=
  let values := (λ c, (c, coverage_of c n)) <$> seq 0 (S n) in
  forallb (λ '(c1, v1),
    Bool.eqb (SFltb zero v1) (0 <? c1)%nat &&
    Bool.eqb (SFeqb v1 hundred) (c1 =? n)%nat &&
    forallb (λ '(c2, v2), Bool.eqb (SFleb v1 v2) (c1 <=? c2)%nat) values)
    values.

(** The scalar values among [values]. *)
Definition scalars (values : list value) : list value :=
  filter (λ v, ¬ is_dict_or_list v) values.

End Measures.

(** ** The statistics popup (updated_pipeline.py, lines 371-413) *)

Module Popup.
Import Py Mongo Explorer.

(** A row of the "Data Types" table. *)
Record type_row : Type := {
  row_field : string;
  primary_type : string;
  all_types : string
}.

(** Lines 377-385, for one item of [stats['field_types']]. *)
Definition type_row_of (field : string) (type_counts : list (string * nat))
    : type_row :=
  let sorted_types := sorted_desc type_counts in
  let primary_type :=
    match sorted_types with
    | (t, _) :: _ => t
    | [] => "unknown"
    end in
  let type_str :=
    String.concat ", "
      ((λ '(t, c), t +:+ " (" +:+ pretty c +:+ ")") <$> sorted_types) in
  {| row_field := field; primary_type := primary_type;
     all_types := type_str |}.

(** Lines 374-385.  The dict is visited in insertion order, that is in
    the order in which the loop of lines 138-146 met the names of a set;
    [map_to_list] stands for that order. *)
Definition type_data (field_types : gmap string (list (string * nat)))
    : list type_row :=
  (λ '(field, type_counts), type_row_of field type_counts) <$>
  filter (λ item, item.1 ≠ "_id") (map_to_list field_types).

(** [l[-n:]] *)
Definition last_items {A : Type} (n : nat) (l : list A) : list A :=
  drop (length l - n) l.

(** Lines 396-413: the two lists of the "Value Distribution" tab; the
    second is shown only for more than five fields, and nothing is shown
    when there is no field. *)
Definition cardinality_lists (distinct_counts : gmap string nat)
    : option (list (string * nat) * option (list (string * nat))) :=
  let distinct_items := map_to_list distinct_counts in
  match distinct_items with
  | [] => None
  | _ :: _ =>
      let sorted_distinct := sorted_desc distinct_items in
      Some (take 5 sorted_distinct,
            if decide (5 < length sorted_distinct)%nat
            then Some (last_items 5 sorted_distinct)
            else None)
  end.

End Popup.

(** ** The session and the "View Data" tab
    (updated_pipeline.py, lines 208-226, 255-273, 276-291, 447-498) *)

Module Pages.
Import Py Mongo Explorer.

(** [a // b] on two [int]s. *)
Definition floordiv (a b : Z) : result Z :=
  if b =? 0 then Raise "integer division or modulo by zero"
  else Ok (a `div` b).

(** [cursor.skip(n)]: pymongo refuses a negative [n] at once. *)
Definition cursor_skip (n : Z) (cursor : result (list document))
    : result (list document) :=
  if n <? 0 then Raise "skip must be >= 0"
  else docs ← cursor; mret (drop (Z.to_nat n) docs).

(** [cursor.limit(n)] for [n >= 0]: 0 lifts the limit. *)
Definition cursor_limit (n : nat) (cursor : result (list document))
    : result (list document) :=
  docs ← cursor;
  mret (match n with O => docs | S _ => take n docs end).

(** [collection.find_one()]: the first document of an unfiltered cursor,
    or [None]. *)
Definition find_one (collection : collection) : result (option document) :=
  docs ← find collection; mret (head docs).

(** The keys of [st.session_state] that the modelled code reads or writes;
    [last_collection] is [None] while the key is absent. *)
Record session : Type := {
  collection_selected : option string;
  previous_collection : option string;
  show_stats_popup : bool;
  collection_stats : option stats;
  items_per_page : nat;
  pagination_page : Z;
  last_collection : option string
}.

(** Lines 208-226. *)
Definition initial_session : session :=
  {| collection_selected := None;
     previous_collection := None;
     show_stats_popup := false;
     collection_stats := None;
     items_per_page := 10;
     pagination_page := 1;
     last_collection := None |}.

Section Pages.
Context `{Builtins}.

(** Lines 255-273: the sidebar, once a collection is chosen in the select
    box and a page size on the slider.  An exception leaves the script
    with the assignments made so far; the handler of line 752 shows it. *)
Definition select_collection (db : database) (selected_collection : string)
    (slider : nat) (s : session) : session * option string :=
  if decide (selected_collection = "") then (s, None)
  else
    let changed :=
      bool_decide (collection_selected s ≠ Some selected_collection) in
    let s1 :=
      if changed
      then {| collection_selected := Some selected_collection;
              previous_collection := collection_selected s;
              show_stats_popup := true;
              collection_stats := collection_stats s;
              items_per_page := items_per_page s;
              pagination_page := pagination_page s;
              last_collection := last_collection s |}
      else s in
    match (if changed
           then Some <$> get_detailed_collection_stats db selected_collection
           else Ok None) with
    | Raise e => (s1, Some ("Error: " +:+ e))
    | Ok new_stats =>
        let reset :=
          bool_decide (last_collection s1 ≠ Some selected_collection) in
        ({| collection_selected := collection_selected s1;
            previous_collection := previous_collection s1;
            show_stats_popup := show_stats_popup s1;
            collection_stats :=
              match new_stats with
              | Some st => Some st
              | None => collection_stats s1
              end;
            items_per_page := slider;
            pagination_page := if reset then 1 else pagination_page s1;
            last_collection :=
              if reset then Some selected_collection
              else last_collection s1 |}, None)
    end.

(** Lines 281-282: the name [stats] is bound only while the popup is
    shown. *)
Definition stats_binding (s : session) : option stats :=
  if show_stats_popup s then collection_stats s else None.

(** Lines 289-291: the close button of the popup. *)
Definition close_popup (s : session) : session :=
  {| collection_selected := collection_selected s;
     previous_collection := previous_collection s;
     show_stats_popup := false;
     collection_stats := collection_stats s;
     items_per_page := items_per_page s;
     pagination_page := pagination_page s;
     last_collection := last_collection s |}.

(** Lines 448-453: the button that shows the statistics again. *)
Definition show_statistics (db : database) (s : session)
    : session * option string :=
  if show_stats_popup s then (s, None)
  else
    match collection_selected s with
    | None => (s, None)
    | Some name =>
        let shown (stats : option stats) :=
          {| collection_selected := collection_selected s;
             previous_collection := previous_collection s;
             show_stats_popup := true;
             collection_stats := stats;
             items_per_page := items_per_page s;
             pagination_page := pagination_page s;
             last_collection := last_collection s |} in
        match get_detailed_collection_stats db name with
        | Ok st => (shown (Some st), None)
        | Raise e => (shown (collection_stats s), Some ("Error: " +:+ e))
        end
    end.

Inductive button : Type := PreviousPage | NextPage.

Definition pressed (b : button) (click : option button) : bool :=
  match click, b with
  | Some PreviousPage, PreviousPage | Some NextPage, NextPage => true
  | _, _ => false
  end.

(** What a run of the tab ends with: [st.rerun()], the page drawn, or an
    exception shown by the handler of line 752. *)
Inductive outcome : Type :=
  | Rerun
  | Drawn (docs : list document) (page_label : option string)
  | Failed (message : string).

Definition set_page (s : session) (page : Z) : session :=
  {| collection_selected := collection_selected s;
     previous_collection := previous_collection s;
     show_stats_popup := show_stats_popup s;
     collection_stats := collection_stats s;
     items_per_page := items_per_page s;
     pagination_page := page;
     last_collection := last_collection s |}.

(** Lines 458-498; [doc_count] is where line 490 reads the document count
    from: [stats['doc_count']], which needs the name [stats] to be bound.
    At most one button is pressed in a run, and the buttons exist only
    when the page holds documents. *)
Definition view_data (collection : collection) (click : option button)
    (s : session) : session * outcome :=
  let skip := (pagination_page s - 1) * Z.of_nat (items_per_page s) in
  match cursor_limit (items_per_page s)
          (cursor_skip skip (find collection)) with
  | Raise e => (s, Failed ("Error: " +:+ e))
  | Ok [] => (s, Drawn [] None)
  | Ok (doc :: docs) =>
      if pressed PreviousPage click && (1 <? pagination_page s)
      then (set_page s (pagination_page s - 1), Rerun)
      else
        match stats_binding s with
        | None => (s, Failed "Error: name 'stats' is not defined")
        | Some stats =>
            match floordiv (doc_count stats + Z.of_nat (items_per_page s) - 1)
                           (Z.of_nat (items_per_page s)) with
            | Raise e => (s, Failed ("Error: " +:+ e))
            | Ok total_pages =>
                if pressed NextPage click
                then (set_page s (pagination_page s + 1), Rerun)
                else (s, Drawn (doc :: docs)
                           (Some ("Page " +:+ pretty (pagination_page s)
                                  +:+ " of " +:+ pretty total_pages)))
            end
        end
  end.

End Pages.
End Pages.

(** ** Vocabulary for the pages *)

Module Paging.
Import Py Mongo Explorer Pages.

(** The documents a run of the tab has drawn. *)
Definition docs_of (o : outcome) : list document :=
  match o with
  | Drawn docs _ => docs
  | _ => []
  end.

(** One user action: the sidebar with a slider value between its bounds
    (line 268), the two popup buttons, a run of the "View Data" tab. *)
Inductive step `{Builtins} : session → session → Prop :=
  | step_select db name slider s :
      (5 ≤ slider ≤ 100)%nat →
      step s (select_collection db name slider s).1
  | step_close s : step s (close_popup s)
  | step_show db s : step s (show_statistics db s).1
  | step_view collection click s : step s (view_data collection click s).1.

(** The sessions that user actions lead to. *)
Definition reachable `{Builtins} (s : session) : Prop :=
  rtc step initial_session s.

End Paging.

(** ** The older explorer (mongo.py, lines 140-158) *)

Module Legacy.
Import Py Mongo Explorer Pages.

(** The three metrics of the "Collection Statistics" expander; the third
    is drawn only for a sample document that is not empty. *)
Record summary : Type := {
  total_documents : Z;
  collection_size : number;
  fields : option nat
}.

(** mongo.py, lines 147-158. *)
Definition collection_statistics `{Builtins} (db : database)
    (collection_name : string) : result summary :=
  let collection := db_collection db collection_name in
  doc_count ← count_documents collection NoFilter;
  stats ← command_collstats db collection_name;
  let size_mb :=
    round (truediv (get_metric (stat_size stats)) (1024 * 1024)) 2 in
  sample_doc ← find_one collection;
  let field_count :=
    match sample_doc with
    | Some ((_ :: _) as doc) =>
        Some (if contains doc "_id" then (length (keys doc) - 1)%nat
              else length (keys doc))
    | _ => None
    end in
  mret {| total_documents := doc_count;
          collection_size := size_mb;
          fields := field_count |}.

(** mongo.py, lines 167-207: the "View Data" tab of the older explorer,
    which reads the document count of line 147. *)
Definition view_tab (doc_count : Z) (collection : collection)
    (click : option button) (s : session) : session * outcome :=
  let skip := (pagination_page s - 1) * Z.of_nat (items_per_page s) in
  match cursor_limit (items_per_page s)
          (cursor_skip skip (find collection)) with
  | Raise e => (s, Failed ("Error: " +:+ e))
  | Ok [] => (s, Drawn [] None)
  | Ok (doc :: docs) =>
      if pressed PreviousPage click && (1 <? pagination_page s)
      then (set_page s (pagination_page s - 1), Rerun)
      else
        match floordiv (doc_count + Z.of_nat (items_per_page s) - 1)
                       (Z.of_nat (items_per_page s)) with
        | Raise e => (s, Failed ("Error: " +:+ e))
        | Ok total_pages =>
            if pressed NextPage click
            then (set_page s (pagination_page s + 1), Rerun)
            else (s, Drawn (doc :: docs)
                       (Some ("Page " +:+ pretty (pagination_page s)
                              +:+ " of " +:+ pretty total_pages)))
        end
  end.

(** mongo.py, lines 136-207 under the handler of lines 107 and 461: the
    statistics, then the tab. *)
Definition main_area `{Builtins} (db : database) (collection_name : string)
    (click : option button) (s : session) : session * outcome :=
  match collection_statistics db collection_name with
  | Raise e => (s, Failed ("Error: " +:+ e))
  | Ok summary =>
      view_tab (total_documents summary) (db_collection db collection_name)
        click s
  end.

End Legacy.

(** ** The "Field Analysis" tab (updated_pipeline.py, lines 572-582) *)

Module FieldTab.
Import Py Mongo Explorer.

(** [sorted(names)] on strings without repetition: ascending order of the
    code points, which is the order of the UTF-8 bytes. *)
Fixpoint insert_name (x : string) (l : list string) : list string :=
  match l with
  | [] => [x]
  | y :: l' => if String.leb x y then x :: y :: l' else y :: insert_name x l'
  end.

Definition sorted_names (names : list string) : list string :=
  foldr insert_name [] names.

(** Lines 572-582: the options of the select box, or [None] when the tab
    shows "No documents found to analyze." *)
Definition field_options (collection : collection)
    : result (option (list string)) :=
  sample_docs ← limit 10 (find collection);
  mret match sample_docs with
       | [] => None
       | _ :: _ => Some (sorted_names (elements (all_fields sample_docs)))
       end.

(** Names in strictly ascending order. *)
Definition name_lt (a b : string) : Prop := String.ltb a b = true.

End FieldTab.

(** ** The "Search" tab (updated_pipeline.py, lines 513-545) *)

Module Searching.
Import Stdlib.Strings.Ascii.

(** [s.replace(".", "", 1)] *)
Fixpoint replace_first_dot (s : string) : string :=
  match s with
  | EmptyString => EmptyString
  | String c s' =>
      if Ascii.eqb c "."%char then s' else String c (replace_first_dot s')
  end.

Definition is_digit (c : ascii) : bool :=
  (48 <=? nat_of_ascii c)%nat && (nat_of_ascii c <=? 57)%nat.

Fixpoint all_digits (s : string) : bool :=
  match s with
  | EmptyString => true
  | String c s' => is_digit c && all_digits s'
  end.

(** [s.isdigit()] for a text of ASCII characters: the digits of other
    scripts, which [isdigit] also accepts, are not modelled. *)
Definition isdigit (s : string) : bool :=
  match s with
  | EmptyString => false
  | String _ _ => all_digits s
  end.

(** The texts [isdigit] is modelled for. *)
Fixpoint ascii_text (s : string) : bool :=
  match s with
  | EmptyString => true
  | String c s' => (nat_of_ascii c <? 128)%nat && ascii_text s'
  end.

(** What a value is compared with: the text itself, or [float(literal)]. *)
Inductive operand : Type :=
  | Text (s : string)
  | Number (literal : string).

Inductive condition : Type :=
  | OpEq (value : string)
  | OpRegex (pattern : string) (options : option string)
  | OpGt (o : operand)
  | OpLt (o : operand).

Inductive search_type : Type :=
  | ExactMatch
  | Contains
  | Regex
  | GreaterThan
  | LessThan.

(** Lines 529-533 and 539-543. *)
Definition comparand (search_value : string) : operand :=
  if isdigit (replace_first_dot search_value) then Number search_value
  else Text search_value.

(** Lines 514-545: the query sent to [find], or [None] when the warning
    "Please enter a search value" is shown. *)
Definition search_query (search_field : string) (t : search_type)
    (search_value : string) : option (string * condition) :=
  match search_value with
  | EmptyString => None
  | String _ _ =>
      Some (search_field,
            match t with
            | ExactMatch => OpEq search_value
            | Contains => OpRegex search_value (Some "i")
            | Regex => OpRegex search_value None
            | GreaterThan => OpGt (comparand search_value)
            | LessThan => OpLt (comparand search_value)
            end)
  end.

End Searching.

(** ** The "Export" tab (updated_pipeline.py, lines 607-725) *)

Module Exporting.
Import Py Mongo Explorer Pages.

Inductive export_option : Type :=
  | AllDocuments
  | CurrentView
  | SelectedFields
  | SingleFieldAll
  | SingleFieldUnique
  | MultipleFields.

(** The values of the widgets of lines 626-636. *)
Record selection : Type := {
  selected_fields : list string;
  single_field : option string;
  chosen_fields : list string;
  include_ids : bool
}.

(** [l.remove(x)]: the first occurrence goes. *)
Fixpoint remove_first (x : string) (l : list string) : list string :=
  match l with
  | [] => []
  | y :: l' => if decide (y = x) then l' else y :: remove_first x l'
  end.

(** Lines 635-638. *)
Definition custom_fields (sel : selection) : list string :=
  if negb (include_ids sel) && bool_decide ("_id" ∈ chosen_fields sel)
  then remove_first "_id" (chosen_fields sel)
  else chosen_fields sel.

(** [{field: 1 for field in fields}] *)
Definition inclusion (fields : list string) : gmap string Z :=
  foldl (λ projection field, <[field := 1]> projection) ∅ fields.

(** Lines 693-697. *)
Definition custom_projection (sel : selection) : gmap string Z :=
  <["_id" := if include_ids sel then 1 else 0]>
    (inclusion (custom_fields sel)).

(** Lines 669-672. *)
Definition single_field_docs (field : string) (docs : list document)
    : list document :=
  (λ doc, [(field, get doc field)]) <$>
  filter (λ doc, contains doc field) docs.

(** Truth of a select box value: a name that is not empty. *)
Definition chosen (field : option string) : option string :=
  match field with
  | Some "" | None => None
  | Some name => Some name
  end.

(** Lines 646-704: the documents to export and the warning shown, if any.
    [find_projected] stands for [collection.find({}, projection)]. *)
Definition docs_to_export (collection : collection)
    (find_projected : gmap string Z → result (list document))
    (s : session) (choice : export_option) (sel : selection)
    : result (list document * option string) :=
  let exported (docs : list document) : result (list document * option string)
    := Ok (docs, None) in
  let warned (message : string) : result (list document * option string)
    := Ok ([], Some message) in
  match choice with
  | AllDocuments => find collection ≫= exported
  | CurrentView =>
      let skip := (pagination_page s - 1) * Z.of_nat (items_per_page s) in
      cursor_limit (items_per_page s) (cursor_skip skip (find collection))
      ≫= exported
  | SelectedFields =>
      match selected_fields sel with
      | [] => warned "Please select at least one field to export."
      | fields => find_projected (inclusion fields) ≫= exported
      end
  | SingleFieldAll =>
      match chosen (single_field sel) with
      | Some field =>
          docs ← find collection; exported (single_field_docs field docs)
      | None => warned "Please select a field to export."
      end
  | SingleFieldUnique =>
      match chosen (single_field sel) with
      | Some field =>
          unique_values ← distinct collection field;
          exported ((λ value, [(field, value)]) <$> unique_values)
      | None => warned "Please select a field to export."
      end
  | MultipleFields =>
      match custom_fields sel with
      | [] => warned "Please select at least one field to export."
      | _ :: _ => find_projected (custom_projection sel) ≫= exported
      end
  end.

(** Lines 621-643: without a sample document the widgets are not drawn
    and their names are bound to empty values. *)
Definition widgets (sample_doc : option document) (user : selection)
    : selection :=
  match sample_doc with
  | Some (_ :: _) => user
  | _ => {| selected_fields := []; single_field := None;
            chosen_fields := []; include_ids := false |}
  end.

(** Lines 621-704, once "Generate Export" is pressed. *)
Definition generate_export (collection : collection)
    (find_projected : gmap string Z → result (list document))
    (s : session) (choice : export_option) (user : selection)
    : result (list document * option string) :=
  sample_doc ← find_one collection;
  docs_to_export collection find_projected s choice (widgets sample_doc user).

End Exporting.

(** ** Sample sessions and selections *)

Module Scenarios.
Import Py Mongo Explorer Samples Pages Exporting.

(** A report of which only the document count is read. *)
Definition counted (n : Z) : stats :=
  {| doc_count := n;
     size_mb := NInt 0;
     avg_doc_size_kb := NInt 0;
     storage_size_mb := NInt 0;
     index_size_mb := NInt 0;
     index_count := 0;
     field_analysis := None |}.

(** The session of a user who looks at page [page] of the collection "c",
    with the popup shown or closed. *)
Definition viewing (popup : bool) (st : stats) (size : nat) (page : Z)
    : session :=
  {| collection_selected := Some "c";
     previous_collection := None;
     show_stats_popup := popup;
     collection_stats := Some st;
     items_per_page := size;
     pagination_page := page;
     last_collection := Some "c" |}.

(** Ten records with the field [a], then one with the field [b]. *)
Definition eleven_records : list document :=
  replicate 10 [("_id", oid "001"); ("a", VInt 1)]
  ++ [ [("_id", oid "011"); ("b", VStr "x")] ].

(** Whether a projection that includes fields keeps [field]: [_id] stays
    unless it is excluded. *)
Definition kept (projection : gmap string Z) (field : string) : bool :=
  if decide (field = "_id")
  then bool_decide (projection !! "_id" ≠ Some 0)
  else bool_decide (projection !! field = Some 1).

(** [find({}, projection)] on [docs]. *)
Definition projecting (docs : list document) (projection : gmap string Z)
    : result (list document) :=
  Ok ((λ doc : document,
         filter (λ item : string * value, kept projection item.1) doc)
      <$> docs).

(** The widgets of the "Export" tab with one field in the select box. *)
Definition one_field (field : string) : selection :=
  {| selected_fields := []; single_field := Some field;
     chosen_fields := []; include_ids := false |}.

(** The widgets with a custom choice of fields. *)
Definition custom_choice (fields : list string) (ids : bool) : selection :=
  {| selected_fields := []; single_field := None;
     chosen_fields := fields; include_ids := ids |}.

End Scenarios.

(** ** Lemmas *)

Import Py Mongo Explorer Report.

Section Loops.
Context `{builtins : Builtins}.

(** *** The set of field names *)

Lemma elem_of_foldl_keys (field : string) (docs : list document)
    (acc : gset string) :
  field ∈ foldl (λ fields doc, fields ∪ list_to_set (keys doc)) acc docs
  ↔ field ∈ acc ∨ ∃ doc, doc ∈ docs ∧ field ∈ keys doc.
Proof.
  revert acc. induction docs as [|doc docs IH]; intros acc; simpl.
  - split; [by left | intros [?|(doc & Hin & _)]; [done | inversion Hin]].
  - rewrite IH, elem_of_union, elem_of_list_to_set. split.
    + intros [[?|?]|(d & ? & ?)]; [by left | right | right].
      * exists doc. split; [left | done].
      * exists d. split; [by right | done].
    + intros [?|(d & Hin & ?)]; [by left; left |].
      apply elem_of_cons in Hin as [->|?]; [left; by right |].
      right. by exists d.
Qed.

Lemma elem_of_all_fields (field : string) (docs : list document) :
  field ∈ all_fields docs ↔ ∃ doc, doc ∈ docs ∧ field ∈ keys doc.
Proof.
  unfold all_fields. rewrite elem_of_foldl_keys. split; [|by right].
  intros [Hin|?]; [|done]. by apply not_elem_of_empty in Hin.
Qed.

Lemma contains_keys (doc : document) (field : string) :
  contains doc field ↔ field ∈ keys doc.
Proof. unfold contains, keys. by rewrite bool_decide_spec. Qed.

(** *** Loops that fill a dict *)

Lemma lookup_foldl_insert {V : Type} (guard : string → bool) (g : string → V)
    (fields : list string) (acc : gmap string V) (k : string) :
  foldl (λ m field, if guard field then <[field := g field]> m else m)
        acc fields !! k
  = if decide (k ∈ fields ∧ guard k) then Some (g k) else acc !! k.
Proof.
  revert acc. induction fields as [|f fields IH]; intros acc; simpl.
  - destruct (decide (k ∈ [] ∧ guard k)) as [[Hk _]|?]; [inversion Hk | done].
  - rewrite IH. destruct (decide (k ∈ fields ∧ guard k)) as [[Hin Hg]|Hno].
    + rewrite decide_True; [done | split; [by right | done]].
    + destruct (decide (f = k)) as [->|Hne].
      * destruct (guard k) eqn:Hg.
        -- rewrite lookup_insert_eq, decide_True; [done | split; [left | done]].
        -- rewrite decide_False; [done | intros [_ []]].
      * assert (acc' : (if guard f then <[f:=g f]> acc else acc) !! k = acc !! k).
        { destruct (guard f); [by rewrite lookup_insert_ne | done]. }
        rewrite acc'. rewrite decide_False; [done |].
        intros [Hin Hg]. apply elem_of_cons in Hin as [->|Hin]; [done |].
        by apply Hno.
Qed.

Lemma foldl_pointwise {A B : Type} (f g : A → B → A) (l : list B) (a : A) :
  (∀ a b, f a b = g a b) → foldl f a l = foldl g a l.
Proof.
  intros Hfg. revert a. induction l as [|b l IH]; intros a; simpl; [done |].
  by rewrite Hfg, IH.
Qed.

Lemma lookup_field_types_loop (docs : list document) (fields : list string)
    (k : string) :
  field_types_loop docs fields !! k
  = if decide (k ∈ fields) then Some (type_counts docs k) else None.
Proof.
  unfold field_types_loop.
  rewrite (lookup_foldl_insert (λ _, true) (type_counts docs) fields ∅ k).
  rewrite lookup_empty.
  destruct (decide (k ∈ fields)) as [Hin|Hno].
  - by rewrite decide_True.
  - rewrite decide_False; [done | by intros [? _]].
Qed.

Lemma lookup_value_distributions_loop (docs : list document)
    (fields : list string) (k : string) :
  value_distributions_loop docs fields !! k
  = if decide (k ∈ fields ∧ has_table docs k)
    then Some (sorted_values (field_values docs k)) else None.
Proof.
  unfold value_distributions_loop.
  transitivity
    (foldl (λ (m : gmap string (list (string * nat))) f,
              if has_table docs f
              then <[f := sorted_values (field_values docs f)]> m else m)
           ∅ fields !! k).
  { f_equal. apply foldl_pointwise. intros m f. unfold has_table.
    destruct (decide (f ≠ "_id")) as [Hne|Heq].
    - rewrite bool_decide_true by done. simpl.
      destruct (field_values docs f) as [|first rest]; [done |].
      by destruct (is_dict_or_list first).
    - by rewrite bool_decide_false. }
  rewrite (lookup_foldl_insert (has_table docs)
             (λ f, sorted_values (field_values docs f)) fields ∅ k).
  by rewrite lookup_empty.
Qed.

(** *** Sets and the distinct counts *)

Lemma for_each_Ok {A S : Type} (xs : list A) (body : S → A → result S)
    (g : S → A → S) (s : S) :
  (∀ s x, x ∈ xs → body s x = Ok (g s x)) →
  for_each xs body s = Ok (foldl g s xs).
Proof.
  revert s. induction xs as [|x xs IH]; intros s Hbody; simpl; [done |].
  rewrite Hbody by left. simpl. apply IH. intros s' y Hy.
  apply Hbody. by right.
Qed.

Lemma for_each_Raise {A S : Type} (xs : list A) (body : S → A → result S)
    (s : S) (x : A) :
  x ∈ xs → (∀ s, ∃ e, body s x = Raise e) →
  ∃ e, for_each xs body s = Raise e.
Proof.
  intros Hin Hraise. revert s.
  induction xs as [|y xs IH]; intros s; [by apply elem_of_nil in Hin |].
  simpl. apply elem_of_cons in Hin as [<-|Hin].
  - destruct (Hraise s) as [e ->]. by exists e.
  - destruct (body s y) as [s'|e]; simpl; [by apply IH | by exists e].
Qed.

Lemma for_each_set_add (values acc s : list value) :
  for_each values set_add acc = Ok s
  ↔ Forall (λ v, hashable v) values ∧ s = foldl set_insert acc values.
Proof.
  revert acc. induction values as [|v values IH]; intros acc; simpl.
  - split; [intros [= <-]; by split | intros [_ ->]; done].
  - change (set_add acc v)
      with (if hashable v then Ok (set_insert acc v)
            else Raise (unhashable_type v)).
    rewrite Forall_cons. destruct (hashable v); simpl.
    + rewrite IH. split; [intros [? ?] | intros [[_ ?] ?]]; done.
    + split; [done | by intros [[[] _] _]].
Qed.

Lemma set_of_Ok (values s : list value) :
  set_of values = Ok s
  ↔ Forall (λ v, hashable v) values ∧ s = foldl set_insert [] values.
Proof. apply for_each_set_add. Qed.

Lemma set_of_Raise (values : list value) :
  ¬ Forall (λ v, hashable v) values → ∃ e, set_of values = Raise e.
Proof.
  intros Hno. destruct (set_of values) as [s|e] eqn:Hset; [|by exists e].
  apply set_of_Ok in Hset as [Hall _]. done.
Qed.

(** The values that line 178 puts in the set of [field]. *)
Lemma hashable_sample_spec (docs : list document) :
  hashable_sample docs
  ↔ ∀ doc field, doc ∈ docs → field ≠ "_id" →
      contains doc field && negb (is_dict_or_list (get doc field)) →
      hashable (get doc field).
Proof.
  unfold hashable_sample. rewrite Is_true_true, forallb_forall. split.
  - intros Hall doc field Hdoc Hid [Hkey Hscalar]%andb_prop_elim.
    specialize (Hall doc (proj1 (list_elem_of_In _ _) Hdoc)).
    rewrite forallb_forall in Hall.
    apply contains_keys, list_elem_of_In in Hkey. specialize (Hall _ Hkey).
    rewrite bool_decide_false in Hall by done. simpl in Hall.
    destruct (is_dict_or_list (get doc field)); [done |].
    by apply Is_true_true.
  - intros Hall doc Hdoc%list_elem_of_In. apply forallb_forall.
    intros field Hkey%list_elem_of_In.
    destruct (decide (field = "_id")) as [->|Hid]; [done |].
    rewrite bool_decide_false by done. simpl.
    destruct (is_dict_or_list (get doc field)) eqn:Hscalar; [done |].
    simpl. apply Is_true_true, (Hall doc field Hdoc Hid).
    apply andb_prop_intro. split; [by apply contains_keys |].
    by rewrite Hscalar.
Qed.

Lemma distinct_values_Ok (docs : list document) (field : string) :
  hashable_sample docs → field ≠ "_id" →
  ∃ values, distinct_values docs field = Ok values.
Proof.
  intros Hsample Hid. eexists. unfold distinct_values. apply set_of_Ok.
  split; [|reflexivity]. apply Forall_fmap, Forall_forall.
  intros doc [Hscalar Hdoc]%list_elem_of_filter. simpl.
  by apply (proj1 (hashable_sample_spec docs) Hsample doc field).
Qed.

Lemma distinct_counts_loop_Ok (docs : list document) (fields : list string) :
  hashable_sample docs →
  ∃ m, distinct_counts_loop docs fields = Ok m ∧
    ∀ k, if decide (k ∈ fields ∧ k ≠ "_id")
         then ∃ values, distinct_values docs k = Ok values ∧
                        m !! k = Some (length values)
         else m !! k = None.
Proof.
  intros Hsample. unfold distinct_counts_loop.
  set (size_of := λ f, match distinct_values docs f with
                       | Ok values => length values
                       | Raise _ => 0%nat
                       end).
  eexists. split.
  { apply (for_each_Ok _ _
             (λ (m : gmap string nat) f,
                if bool_decide (f ≠ "_id") then <[f := size_of f]> m else m)).
    intros m f _. destruct (decide (f ≠ "_id")) as [Hid|Hid].
    - rewrite bool_decide_true by done. unfold size_of.
      by destruct (distinct_values_Ok docs f Hsample Hid) as [values ->].
    - by rewrite bool_decide_false. }
  intros k.
  rewrite (lookup_foldl_insert (λ f, bool_decide (f ≠ "_id")) size_of
             fields ∅ k), lookup_empty.
  destruct (decide (k ∈ fields ∧ k ≠ "_id")) as [[Hin Hid]|Hno].
  - rewrite decide_True by (split; [done | by apply bool_decide_pack]).
    unfold size_of.
    destruct (distinct_values_Ok docs k Hsample Hid) as [values Hvalues].
    exists values. by rewrite Hvalues.
  - rewrite decide_False; [done |]. intros [Hin Hid]. apply Hno.
    split; [done | by apply bool_decide_unpack in Hid].
Qed.

Lemma distinct_counts_loop_Raise (docs : list document)
    (fields : list string) :
  ¬ hashable_sample docs →
  (∀ doc field, doc ∈ docs → field ∈ keys doc → field ∈ fields) →
  ∃ e, distinct_counts_loop docs fields = Raise e.
Proof.
  intros Hsample Hfields.
  assert (Hbad : ∃ doc field, doc ∈ docs ∧ field ≠ "_id" ∧
            contains doc field && negb (is_dict_or_list (get doc field)) ∧
            ¬ hashable (get doc field)).
  { destruct (decide (Exists (λ doc : document,
                Exists (λ field, field ≠ "_id" ∧
                  contains doc field && negb (is_dict_or_list (get doc field)) ∧
                  ¬ hashable (get doc field)) (keys doc)) docs))
      as [Hex|Hno].
    - apply Exists_exists in Hex as (doc & Hdoc & Hex).
      apply Exists_exists in Hex as (field & _ & Hfield).
      by exists doc, field.
    - exfalso. apply Hsample, hashable_sample_spec.
      intros doc field Hdoc Hid Hscalar.
      destruct (hashable (get doc field)) eqn:Hhash; [done |].
      exfalso. apply Hno, Exists_exists. exists doc. split; [done |].
      apply Exists_exists. exists field. split.
      + apply andb_prop_elim in Hscalar as [Hkey _]. by apply contains_keys.
      + split; [done |]. split; [done |]. intros H. by rewrite Hhash in H. }
  destruct Hbad as (doc & field & Hdoc & Hid & Hscalar & Hhash).
  unfold distinct_counts_loop. apply (for_each_Raise _ _ _ field).
  - apply (Hfields doc); [done |].
    apply andb_prop_elim in Hscalar as [Hkey _]. by apply contains_keys.
  - intros m. rewrite decide_True by done.
    destruct (set_of_Raise
                ((λ doc, get doc field) <$>
                 filter (λ doc, contains doc field
                                && negb (is_dict_or_list (get doc field)))
                        docs)) as [e He].
    { intros Hall. apply Hhash.
      rewrite Forall_fmap, Forall_forall in Hall. apply (Hall doc).
      by apply list_elem_of_filter. }
    exists e. unfold distinct_values. by rewrite He.
Qed.

(** *** Coverage: the division never raises on a sample of up to 100 *)

Lemma coverage_table :
  forallb (λ n, forallb (λ c, coverage_in_range c n) (seq 0 (S n)))
          (seq 1 100) = true.
Proof. vm_compute. reflexivity. Qed.

Lemma coverage_in_range_true (c n : nat) :
  (c ≤ n)%nat → (0 < n ≤ 100)%nat → coverage_in_range c n = true.
Proof.
  intros Hc Hn. pose proof coverage_table as Ht.
  rewrite forallb_forall in Ht.
  specialize (Ht n). rewrite forallb_forall in Ht.
  apply Ht; apply in_seq; lia.
Qed.

Lemma presence_le (docs : list document) (field : string) :
  (presence docs field ≤ length docs)%nat.
Proof. apply length_filter. Qed.

Lemma coverage_defined (docs : list document) (field : string) :
  (0 < length docs ≤ 100)%nat →
  ∃ q, int_truediv (Z.of_nat (presence docs field)) (Z.of_nat (length docs))
       = Ok q ∧
       SFleb zero (float_mul_int q 100) = true ∧
       SFleb (float_mul_int q 100) hundred = true.
Proof.
  intros Hlen.
  pose proof (coverage_in_range_true _ _ (presence_le docs field) Hlen) as Hok.
  unfold coverage_in_range in Hok.
  destruct (int_truediv _ _) as [q|e]; [|done].
  exists q. apply andb_true_iff in Hok. by destruct Hok.
Qed.

Lemma for_each_coverage (docs : list document) (fields : list string)
    (acc : gmap string coverage_entry) :
  (0 < length docs ≤ 100)%nat →
  ∃ m,
    for_each fields (λ field_coverage field,
      if decide (field ≠ "_id") then
        q ← int_truediv (Z.of_nat (presence docs field))
                        (Z.of_nat (length docs));
        mret (<[field := entry docs field q]> field_coverage)
      else mret field_coverage) acc = Ok m ∧
    ∀ k,
      (k ∈ fields ∧ k ≠ "_id" →
       ∃ q, int_truediv (Z.of_nat (presence docs k)) (Z.of_nat (length docs))
            = Ok q ∧ m !! k = Some (entry docs k q)) ∧
      (¬ (k ∈ fields ∧ k ≠ "_id") → m !! k = acc !! k).
Proof.
  intros Hlen. revert acc.
  induction fields as [|f fields IH]; intros acc; simpl.
  - exists acc. split; [done |]. intros k. split; [|done].
    intros [Hin _]. inversion Hin.
  - destruct (decide (f ≠ "_id")) as [Hne|Heq].
    + destruct (coverage_defined docs f Hlen) as (q & Hq & _).
      rewrite Hq. simpl.
      destruct (IH (<[f := entry docs f q]> acc)) as (m & Hm & Hlook).
      exists m. split; [done |]. intros k. split.
      * intros [Hin Hk]. destruct (decide (k ∈ fields)) as [Hin'|Hno].
        { by apply Hlook. }
        apply elem_of_cons in Hin as [->|?]; [|done].
        exists q. split; [done |].
        destruct (Hlook f) as [_ Hrest].
        rewrite Hrest; [apply lookup_insert_eq | by intros [? _]].
      * intros Hno. destruct (Hlook k) as [_ Hrest]. rewrite Hrest.
        { apply lookup_insert_ne. intros ->. apply Hno. split; [left | done]. }
        intros [? ?]. apply Hno. split; [by right | done].
    + destruct (IH acc) as (m & Hm & Hlook).
      exists m. split; [done |]. intros k. split.
      * intros [Hin Hk]. apply Hlook. split; [|done].
        apply elem_of_cons in Hin as [->|?]; [|done].
        exfalso. apply Heq. done.
      * intros Hno. apply Hlook. intros [? ?]. apply Hno.
        split; [by right | done].
Qed.

(** *** The report as a whole *)

Lemma analyse_fields_describes (sample_docs : list document) :
  (0 < length sample_docs ≤ 100)%nat → hashable_sample sample_docs →
  ∃ fa, analyse_fields sample_docs = Ok fa ∧ describes sample_docs fa.
Proof.
  intros Hlen Hsample. unfold analyse_fields.
  destruct (for_each_coverage sample_docs (elements (all_fields sample_docs))
              ∅ Hlen) as (fc & Hfc & Hlook).
  destruct (distinct_counts_loop_Ok sample_docs
              (elements (all_fields sample_docs)) Hsample)
    as (dc & Hdc & Hdistinct).
  unfold field_coverage_loop. unfold entry in Hfc. rewrite Hfc. simpl.
  rewrite Hdc. simpl.
  eexists. split; [reflexivity |]. split; simpl.
  - done.
  - intros k. destruct (Hlook k) as [Hyes Hno]. split.
    + intros [Hin Hne]. destruct Hyes as (q & Hq & Hk).
      { split; [by apply elem_of_elements | done]. }
      exists q.
      pose proof (coverage_in_range_true _ _ (presence_le sample_docs k) Hlen)
        as Hok.
      unfold coverage_in_range in Hok. rewrite Hq in Hok.
      apply andb_true_iff in Hok as [? ?]. done.
    + intros Hnot. rewrite Hno; [done |].
      intros [Hin Hne]. apply Hnot. split; [by apply elem_of_elements | done].
  - intros k. rewrite lookup_field_types_loop.
    destruct (decide (k ∈ all_fields sample_docs)) as [Hin|Hno].
    + rewrite decide_True; [done | by apply elem_of_elements].
    + rewrite decide_False; [done | by rewrite elem_of_elements].
  - intros k. rewrite lookup_value_distributions_loop.
    destruct (decide (k ∈ all_fields sample_docs ∧ has_table sample_docs k))
      as [[Hin Ht]|Hno].
    + rewrite decide_True; [done | split; [by apply elem_of_elements | done]].
    + rewrite decide_False; [done |]. rewrite elem_of_elements. done.
  - intros k. specialize (Hdistinct k).
    destruct (decide (k ∈ all_fields sample_docs ∧ k ≠ "_id")) as [[Hin Ht]|Hno].
    + rewrite decide_True in Hdistinct; [done |].
      split; [by apply elem_of_elements | done].
    + rewrite decide_False in Hdistinct; [done |].
      rewrite elem_of_elements. done.
Qed.

Lemma analyse_fields_Raise (sample_docs : list document) :
  (0 < length sample_docs ≤ 100)%nat → ¬ hashable_sample sample_docs →
  ∃ e, analyse_fields sample_docs = Raise e.
Proof.
  intros Hlen Hsample. unfold analyse_fields.
  destruct (for_each_coverage sample_docs (elements (all_fields sample_docs))
              ∅ Hlen) as (fc & Hfc & _).
  destruct (distinct_counts_loop_Raise sample_docs
              (elements (all_fields sample_docs)) Hsample) as (e & He).
  { intros doc field Hdoc Hkey. apply elem_of_elements, elem_of_all_fields.
    by exists doc. }
  unfold field_coverage_loop. unfold entry in Hfc. rewrite Hfc. simpl.
  rewrite He. by exists e.
Qed.

Lemma get_detailed_empty (db : database) (name : string) (n : Z)
    (cs : collstats) :
  serves db name n cs [] →
  ∃ st, get_detailed_collection_stats db name = Ok st ∧
        doc_count st = n ∧ field_analysis st = None.
Proof.
  intros (Hn & Hcs & Hdocs). unfold get_detailed_collection_stats, limit.
  rewrite Hn, Hcs, Hdocs. simpl. eexists. split; [reflexivity |]. done.
Qed.

Lemma sample_bounds (docs : list document) :
  docs ≠ [] → (0 < length (take 100 docs) ≤ 100)%nat.
Proof.
  intros Hne. rewrite length_take. destruct docs as [|doc docs]; [done |].
  cbn [length]. lia.
Qed.

Lemma get_detailed_sample (db : database) (name : string) (n : Z)
    (cs : collstats) (docs : list document) :
  serves db name n cs docs → docs ≠ [] → hashable_sample (take 100 docs) →
  ∃ st fa, get_detailed_collection_stats db name = Ok st ∧
           doc_count st = n ∧ field_analysis st = Some fa ∧
           describes (take 100 docs) fa.
Proof.
  intros (Hn & Hcs & Hdocs) Hne Hsample.
  destruct (analyse_fields_describes (take 100 docs) (sample_bounds docs Hne)
              Hsample) as (fa & Hfa & Hdesc).
  unfold get_detailed_collection_stats, limit.
  rewrite Hn, Hcs, Hdocs. simpl.
  destruct (take 100 docs) as [|doc sample] eqn:Hsample'.
  { destruct docs; [done | discriminate]. }
  rewrite Hfa. simpl. eexists. exists fa. split; [reflexivity |]. done.
Qed.

(** Without a hash for one of the sampled values there is no report. *)
Lemma get_detailed_Raise (db : database) (name : string) (n : Z)
    (cs : collstats) (docs : list document) :
  serves db name n cs docs → ¬ hashable_sample (take 100 docs) →
  ∃ e, get_detailed_collection_stats db name = Raise e.
Proof.
  intros (Hn & Hcs & Hdocs) Hsample.
  assert (Hne : docs ≠ []) by (by intros ->).
  destruct (analyse_fields_Raise (take 100 docs) (sample_bounds docs Hne)
              Hsample) as (e & He).
  unfold get_detailed_collection_stats, limit.
  rewrite Hn, Hcs, Hdocs. simpl.
  destruct (take 100 docs) as [|doc sample] eqn:Hsample'.
  { destruct docs; [done | discriminate]. }
  rewrite He. by exists e.
Qed.

End Loops.

(** *** Counting in an insertion-ordered dict *)

Section Counting.

Lemma incr_fresh (d : list (string * nat)) (k : string) :
  k ∉ d.*1 → incr d k = d ++ [(k, 1%nat)].
Proof.
  induction d as [|[k' n] d IH]; simpl; intros Hk; [done |].
  rewrite not_elem_of_cons in Hk. destruct Hk as [Hne Hk].
  rewrite decide_False by done. by rewrite IH.
Qed.

Lemma incr_present (d1 d2 : list (string * nat)) (k : string) (n : nat) :
  k ∉ d1.*1 → incr (d1 ++ (k, n) :: d2) k = d1 ++ (k, S n) :: d2.
Proof.
  induction d1 as [|[k' n'] d1 IH]; simpl; intros Hk.
  - by rewrite decide_True.
  - rewrite not_elem_of_cons in Hk. destruct Hk as [Hne Hk].
    rewrite decide_False by done. by rewrite IH.
Qed.

Lemma key_split (d : list (string * nat)) (k : string) :
  k ∈ d.*1 → ∃ d1 n d2, d = d1 ++ (k, n) :: d2 ∧ k ∉ d1.*1.
Proof.
  induction d as [|[k' n'] d IH]; simpl; intros Hk; [inversion Hk |].
  destruct (decide (k' = k)) as [->|Hne].
  - exists [], n', d. split; [done | apply not_elem_of_nil].
  - apply elem_of_cons in Hk as [->|Hk]; [done |].
    destruct (IH Hk) as (d1 & n & d2 & -> & Hd1).
    exists ((k', n') :: d1), n, d2. split; [done |].
    simpl. rewrite not_elem_of_cons. done.
Qed.

Lemma sum_incr (d : list (string * nat)) (k : string) :
  sum_list (incr d k).*2 = S (sum_list d.*2).
Proof.
  induction d as [|[k' n] d IH]; [done |].
  cbn [incr]. destruct (decide (k' = k)); rewrite !fmap_cons; cbn [snd sum_list];
    [done |]. rewrite IH. lia.
Qed.

Lemma sum_foldl_incr (l : list string) (acc : list (string * nat)) :
  sum_list (foldl incr acc l).*2 = (sum_list acc.*2 + length l)%nat.
Proof.
  revert acc. induction l as [|k l IH]; intros acc; simpl; [lia |].
  rewrite IH, sum_incr. lia.
Qed.

Lemma occurrences_snoc (k k' : string) (l : list string) :
  occurrences k (l ++ [k'])
  = if decide (k = k') then S (occurrences k l) else occurrences k l.
Proof.
  unfold occurrences. rewrite filter_app, length_app.
  destruct (decide (k = k')) as [->|Hne].
  - rewrite filter_cons_True by done. simpl. lia.
  - rewrite filter_cons_False by done. simpl. lia.
Qed.

Lemma occurrences_0 (k : string) (l : list string) :
  k ∉ l → occurrences k l = 0%nat.
Proof.
  unfold occurrences. induction l as [|x l IH]; intros Hk; [done |].
  rewrite not_elem_of_cons in Hk. destruct Hk as [Hne Hk].
  rewrite filter_cons_False by done. by apply IH.
Qed.

Lemma tallies_nil : tallies [] [].
Proof.
  split; simpl.
  - constructor.
  - intros k n Hin. inversion Hin.
  - intros k Hin. inversion Hin.
  - intros a b Hsub. apply sublist_nil_r in Hsub. discriminate.
Qed.

Lemma tallies_incr (l : list string) (d : list (string * nat)) (k : string) :
  tallies l d → tallies (l ++ [k]) (incr d k).
Proof.
  intros [Hnd Hcount Hkey Horder].
  assert (Hkeys : ∀ k', k' ∈ d.*1 ↔ k' ∈ l).
  { intros k'. rewrite list_elem_of_fmap. split.
    - intros ([k'' n] & -> & Hin). by apply Hcount in Hin as [? _].
    - intros Hin. exists (k', occurrences k' l). split; [done | by apply Hkey]. }
  destruct (decide (k ∈ d.*1)) as [Hin|Hfresh].
  - destruct (key_split d k Hin) as (d1 & n & d2 & -> & Hd1).
    rewrite incr_present by done.
    assert (Hn : n = occurrences k l).
    { apply (Hcount k n). rewrite elem_of_app, elem_of_cons. right. by left. }
    assert (Hsame : (d1 ++ (k, S n) :: d2).*1 = (d1 ++ (k, n) :: d2).*1).
    { by rewrite !fmap_app, !fmap_cons. }
    split.
    + by rewrite Hsame.
    + intros k' n' Hin'. rewrite elem_of_app, elem_of_cons in Hin'.
      rewrite occurrences_snoc, elem_of_app.
      destruct Hin' as [Hin'|[Heq|Hin']].
      * destruct (Hcount k' n') as [? ->].
        { rewrite elem_of_app. by left. }
        split; [by left |]. rewrite decide_False; [done |].
        intros ->. apply Hd1. apply list_elem_of_fmap.
        by exists (k, occurrences k l).
      * injection Heq as -> ->.
        split; [right; by apply list_elem_of_singleton |].
        rewrite decide_True by done. by rewrite Hn.
      * destruct (Hcount k' n') as [? ->].
        { rewrite elem_of_app, elem_of_cons. right. by right. }
        split; [by left |]. rewrite decide_False; [done |].
        intros ->. rewrite fmap_app, fmap_cons in Hnd. simpl in Hnd.
        apply NoDup_app in Hnd as (_ & _ & Hnd).
        apply NoDup_cons in Hnd as [Hnd _]. apply Hnd.
        apply list_elem_of_fmap. by exists (k, occurrences k l).
    + intros k' Hin'. rewrite occurrences_snoc.
      destruct (decide (k' = k)) as [->|Hne].
      * rewrite <- Hn. rewrite elem_of_app, elem_of_cons. right. by left.
      * assert (Hl : k' ∈ l).
        { apply elem_of_app in Hin' as [?|Hk]; [done |].
          apply list_elem_of_singleton in Hk. done. }
        specialize (Hkey k' Hl).
        rewrite elem_of_app, elem_of_cons in Hkey.
        rewrite elem_of_app, elem_of_cons.
        destruct Hkey as [?|[Heq|?]]; [by left | | right; by right].
        injection Heq as Heq _. done.
    + intros a b Hsub. rewrite Hsame in Hsub.
      destruct (Horder a b Hsub) as (l1 & l2 & -> & Hb).
      exists l1, (l2 ++ [k]). split; [by rewrite <- app_assoc | done].
  - rewrite incr_fresh by done.
    assert (Hk : k ∉ l) by (by rewrite <- Hkeys).
    split.
    + rewrite fmap_app. simpl. apply NoDup_app. split; [done |]. split.
      * intros k' Hk' Hin'. apply list_elem_of_singleton in Hin' as ->. done.
      * apply NoDup_singleton.
    + intros k' n' Hin'. rewrite elem_of_app in Hin'.
      rewrite occurrences_snoc, elem_of_app.
      destruct Hin' as [Hin'|Hin'].
      * destruct (Hcount k' n' Hin') as [? ->]. split; [by left |].
        rewrite decide_False; [done | by intros ->].
      * apply list_elem_of_singleton in Hin'. injection Hin' as -> ->.
        split; [right; by apply list_elem_of_singleton |].
        rewrite decide_True by done. by rewrite occurrences_0.
    + intros k' Hin'. rewrite occurrences_snoc, elem_of_app.
      destruct (decide (k' = k)) as [->|Hne].
      * right. rewrite occurrences_0 by done. by apply list_elem_of_singleton.
      * left. apply Hkey. apply elem_of_app in Hin' as [?|Hs]; [done |].
        apply list_elem_of_singleton in Hs. done.
    + intros a b Hsub. rewrite fmap_app in Hsub. simpl in Hsub.
      apply sublist_app_r in Hsub as (k1 & k2 & Hab & Hk1 & Hk2).
      destruct k2 as [|x k2].
      * rewrite app_nil_r in Hab. subst k1.
        destruct (Horder a b Hk1) as (l1 & l2 & -> & Hb).
        exists l1, (l2 ++ [k]). split; [by rewrite <- app_assoc | done].
      * apply sublist_cons_l in Hk2 as (x1 & x2 & Hx & Hk2).
        destruct x1 as [|? [|? ?]]; try discriminate.
        injection Hx as -> <-. apply sublist_nil_r in Hk2 as ->.
        destruct k1 as [|a' [|? k1]]; try discriminate;
          [|injection Hab as _ _ Hnil; by destruct k1].
        injection Hab as -> ->.
        assert (Ha : a' ∈ l).
        { apply Hkeys. apply sublist_cons_l in Hk1 as (? & ? & -> & _).
          rewrite elem_of_app, elem_of_cons. right. by left. }
        apply list_elem_of_split in Ha as (l1 & l2 & ->).
        exists l1, (l2 ++ [x]). split; [by rewrite <- app_assoc |].
        intros Hx. apply Hk. rewrite elem_of_app. by left.
Qed.

Lemma tallies_foldl (l : list string) : tallies l (foldl incr [] l).
Proof.
  induction l as [|k l IH] using rev_ind; [apply tallies_nil |].
  rewrite foldl_snoc. by apply tallies_incr.
Qed.

End Counting.

(** *** The stable sort *)

Section Sorting.

Lemma insert_desc_Permutation (x : string * nat) (l : list (string * nat)) :
  insert_desc x l ≡ₚ x :: l.
Proof.
  induction l as [|y l IH]; simpl; [done |].
  destruct (decide (y.2 ≤ x.2)%nat); [done |].
  rewrite IH. apply Permutation_swap.
Qed.

Lemma sorted_desc_Permutation (l : list (string * nat)) : sorted_desc l ≡ₚ l.
Proof.
  induction l as [|x l IH]; simpl; [done |].
  by rewrite insert_desc_Permutation, IH.
Qed.

Lemma insert_desc_sorted (x : string * nat) (l : list (string * nat)) :
  StronglySorted count_ge l → StronglySorted count_ge (insert_desc x l).
Proof.
  induction 1 as [|y l Hl IH Hy]; simpl.
  - repeat constructor.
  - destruct (decide (y.2 ≤ x.2)%nat) as [Hle|Hgt].
    + constructor; [by constructor |]. constructor; [done |].
      eapply Forall_impl; [exact Hy |]. unfold count_ge. intros z Hz. lia.
    + constructor; [done |].
      rewrite insert_desc_Permutation. constructor; [|done].
      unfold count_ge. lia.
Qed.

Lemma sorted_desc_sorted (l : list (string * nat)) :
  StronglySorted count_ge (sorted_desc l).
Proof.
  induction l as [|x l IH]; simpl; [constructor |].
  by apply insert_desc_sorted.
Qed.

(** Stability: the items of one count keep their order. *)
Lemma filter_insert_desc (c : nat) (x : string * nat)
    (l : list (string * nat)) :
  filter (λ z, z.2 = c) (insert_desc x l) = filter (λ z, z.2 = c) (x :: l).
Proof.
  induction l as [|y l IH]; simpl; [done |].
  destruct (decide (y.2 ≤ x.2)%nat) as [Hle|Hgt]; [done |].
  rewrite (filter_cons _ y), IH, !(filter_cons _ x), !(filter_cons _ y).
  destruct (decide (x.2 = c)), (decide (y.2 = c)); try done. lia.
Qed.

Lemma filter_sorted_desc (c : nat) (l : list (string * nat)) :
  filter (λ z, z.2 = c) (sorted_desc l) = filter (λ z, z.2 = c) l.
Proof.
  induction l as [|x l IH]; simpl; [done |].
  by rewrite filter_insert_desc, !filter_cons, IH.
Qed.

Lemma filter_sublist_mono {A : Type} (P : A → Prop) `{∀ x, Decision (P x)}
    (l1 l2 : list A) :
  l1 `sublist_of` l2 → filter P l1 `sublist_of` filter P l2.
Proof.
  induction 1 as [|x l1 l2 Hsub IH|x l1 l2 Hsub IH]; [done | |].
  - rewrite !filter_cons. destruct (decide (P x)); [by constructor | done].
  - rewrite filter_cons. destruct (decide (P x)); [by constructor | done].
Qed.

Lemma sorted_desc_stable (x y : string * nat) (l : list (string * nat)) :
  [x; y] `sublist_of` sorted_desc l → x.2 = y.2 → [x; y] `sublist_of` l.
Proof.
  intros Hsub Heq.
  assert (Hf : filter (λ z, z.2 = x.2) [x; y] = [x; y]).
  { rewrite !filter_cons, filter_nil.
    rewrite decide_True by done. by rewrite decide_True. }
  rewrite <- Hf. etrans; [|apply (sublist_filter (λ z, z.2 = x.2))].
  rewrite <- (filter_sorted_desc _ l). by apply filter_sublist_mono.
Qed.

End Sorting.

(** *** The values of one field *)

Section Values.
Context `{builtins : Builtins}.

Lemma length_field_values (docs : list document) (field : string) :
  length (field_values docs field) = presence docs field.
Proof. unfold field_values, presence. apply length_fmap. Qed.

Lemma type_counts_tally (docs : list document) (field : string) :
  type_counts docs field
  = foldl incr [] (type_name <$> field_values docs field).
Proof.
  unfold type_counts, field_values. generalize (@nil (string * nat)).
  induction docs as [|doc docs IH]; intros acc; [done |].
  rewrite filter_cons. cbn [foldl].
  destruct (decide (contains doc field)) as [Hc|Hc].
  - apply Is_true_true in Hc. rewrite Hc. rewrite !fmap_cons. cbn [foldl].
    apply IH.
  - apply Is_true_false in Hc. rewrite Hc. apply IH.
Qed.

Lemma value_counts_tally (values : list value) :
  value_counts values = foldl incr [] (str <$> values).
Proof. unfold value_counts. by rewrite foldl_fmap. Qed.

Lemma distinct_values_scalars (docs : list document) (field : string) :
  distinct_values docs field
  = set_of (filter (λ v, ¬ is_dict_or_list v) (field_values docs field)).
Proof.
  unfold distinct_values, field_values. f_equal.
  induction docs as [|doc docs IH]; [done |].
  rewrite !filter_cons.
  destruct (contains doc field) eqn:Hc; simpl.
  - rewrite filter_cons.
    destruct (is_dict_or_list (get doc field)) eqn:Hd; simpl; [done |].
    f_equal. exact IH.
  - done.
Qed.

Lemma field_values_cons (docs : list document) (field : string) :
  field ∈ all_fields docs →
  ∃ first rest, field_values docs field = first :: rest.
Proof.
  intros Hin. apply elem_of_all_fields in Hin as (doc & Hdoc & Hkey).
  destruct (field_values docs field) as [|first rest] eqn:Hv; [|by eauto].
  exfalso. unfold field_values in Hv. apply fmap_nil_inv in Hv.
  assert (Hd : doc ∈ filter (λ doc, contains doc field) docs).
  { apply list_elem_of_filter. split; [by apply contains_keys | done]. }
  rewrite Hv in Hd. inversion Hd.
Qed.

Lemma filter_scalars_nil (values : list value) :
  Forall (λ v, is_dict_or_list v) values →
  filter (λ v, ¬ is_dict_or_list v) values = [].
Proof.
  induction 1 as [|v vs Hv _ IH]; [done |].
  by rewrite filter_cons_False by (by intros Hn; apply Hn).
Qed.


(** What [sorted_values] returns, in terms of the string forms of the
    values. *)
Lemma sorted_values_shape (values : list value) :
  let strs := str <$> values in
  let table := sorted_values values in
  length table = (10 `min` size (list_to_set strs : gset string))%nat ∧
  StronglySorted count_ge table ∧
  NoDup table.*1 ∧
  (∀ k c, (k, c) ∈ table → k ∈ strs ∧ c = occurrences k strs) ∧
  (∀ x y, [x; y] `sublist_of` table → x.2 = y.2 →
     ∃ l1 l2, strs = l1 ++ x.1 :: l2 ∧ y.1 ∉ l1) ∧
  (∀ k, k ∈ strs → k ∉ table.*1 →
     ∀ x, x ∈ table → (occurrences k strs ≤ x.2)%nat).
Proof.
  intros strs table. unfold table, sorted_values.
  rewrite value_counts_tally. fold strs.
  pose proof (tallies_foldl strs) as [Hnd Hcount Hkey Horder].
  set (T := foldl incr [] strs) in *.
  pose proof (sorted_desc_Permutation T) as Hperm.
  pose proof (sorted_desc_sorted T) as Hsorted.
  rewrite <- (take_drop 10 (sorted_desc T)) in Hsorted.
  split; [|split; [|split; [|split; [|split]]]].
  - rewrite length_take, Hperm. f_equal.
    rewrite <- (length_fmap fst T), <- (size_list_to_set (C := gset string)) by done.
    f_equal. apply set_eq. intros k. rewrite !elem_of_list_to_set.
    rewrite list_elem_of_fmap. split.
    + intros ([k' c] & -> & Hin). by apply Hcount in Hin as [? _].
    + intros Hk. exists (k, occurrences k strs). split; [done | by apply Hkey].
  - by apply StronglySorted_app_1_l in Hsorted.
  - eapply sublist_NoDup; [|apply fmap_sublist, sublist_take].
    by rewrite Hperm.
  - intros k c Hin. apply Hcount. rewrite <- Hperm.
    eapply elem_of_sublist; [exact Hin | apply sublist_take].
  - intros x y Hsub Heq. apply Horder.
    apply (fmap_sublist fst [x; y] T).
    apply sorted_desc_stable; [|done].
    etrans; [exact Hsub | apply sublist_take].
  - intros k Hk Hout x Hx.
    specialize (Hkey k Hk). rewrite <- Hperm in Hkey.
    rewrite <- (take_drop 10 (sorted_desc T)) in Hkey.
    apply elem_of_app in Hkey as [Hkey|Hkey].
    + exfalso. apply Hout. apply list_elem_of_fmap.
      by exists (k, occurrences k strs).
    + apply (StronglySorted_app_1_elem_of _ _ _ _ _ Hsorted Hx Hkey).
Qed.

(** What a set built value by value holds. *)
Lemma foldl_set_insert_holds (values acc : list value) :
  let s := foldl set_insert acc values in
  (∃ new, s = acc ++ new ∧ new `sublist_of` values) ∧
  (∀ v, v ∈ values → v ∈ s ∨ ∃ y, y ∈ s ∧ py_eq v y) ∧
  (∀ i j x y, (i < j)%nat → (length acc ≤ j)%nat →
     s !! i = Some y → s !! j = Some x → py_eq x y = false).
Proof.
  revert acc. induction values as [|v values IH]; intros acc; simpl.
  - split; [exists []; by rewrite app_nil_r |]. split.
    + by intros v Hv%elem_of_nil.
    + intros i j x y _ Hj _ Hx%lookup_lt_Some. lia.
  - destruct (IH (set_insert acc v)) as ((new & Hs & Hsub) & Hall & Hapart).
    unfold set_insert in Hs, Hapart.
    destruct (existsb (py_eq v) acc) eqn:Hmem.
    + unfold set_insert in *. rewrite Hmem in *.
      split; [exists new; split; [done | by apply sublist_cons] |]. split.
      * intros w [->|Hw]%elem_of_cons; [|by apply Hall].
        apply existsb_exists in Hmem as (y & Hy%list_elem_of_In & Heq).
        right. exists y. split; [|by rewrite Heq].
        rewrite Hs. apply elem_of_app. by left.
      * done.
    + unfold set_insert in *. rewrite Hmem in *.
      rewrite <- app_assoc in Hs. simpl in Hs.
      split; [exists (v :: new); split; [done | by apply sublist_skip] |].
      split.
      * intros w [->|Hw]%elem_of_cons; [|by apply Hall].
        left. rewrite Hs. apply elem_of_app. right. by left.
      * intros i j x y Hij Hj Hy Hx.
        destruct (decide (j = length acc)) as [->|Hne].
        -- rewrite Hs in Hx, Hy. rewrite lookup_app_l in Hy by done.
           rewrite list_lookup_middle in Hx by done. injection Hx as <-.
           destruct (py_eq v y) eqn:Heq; [|done].
           assert (existsb (py_eq v) acc = true); [|congruence].
           apply existsb_exists. exists y. split; [|done].
           apply list_elem_of_In. by apply list_elem_of_lookup_2 in Hy.
        -- apply (Hapart i j x y Hij); [|done | done].
           rewrite length_app. simpl. lia.
Qed.

Lemma set_of_holds_once (values s : list value) :
  set_of values = Ok s → holds_once values s.
Proof.
  intros [_ ->]%set_of_Ok.
  destruct (foldl_set_insert_holds values [])
    as ((new & Hs & Hsub) & Hall & Hapart).
  simpl in *. split.
  - by rewrite Hs.
  - done.
  - intros i j x y Hij. apply Hapart; [done | simpl; lia].
Qed.

End Values.

(** ** Properties of the report

    Each property is stated for any builtins; it is followed by its
    instance on one of the sample collections, evaluated with
    [sample_builtins].  The set of line 178 needs a hash for every value
    it meets: a sample with a [Decimal128], a [Regex] or a [Code] among
    the scalar values of a field other than [_id] makes the function
    raise [TypeError] ([get_detailed_Raise]), and there is no report to
    speak of.  The properties of the report are therefore stated for the
    samples that satisfy [hashable_sample]. *)

Import Samples.
#[local] Existing Instance sample_builtins.

(** *** Composite values *)

(** C1 as stated fails on a field that is a string in the first record and
    a mapping in the second: the field has a frequency table, with the
    mapping counted under its string form, and a distinct count of 1. *)
Lemma composite_excluded_counterexample :
  ∃ st fa,
    get_detailed_collection_stats (serving string_then_mapping) "c" = Ok st ∧
    field_analysis st = Some fa ∧
    field_values string_then_mapping "f" = [VStr "x"; VDict []] ∧
    value_distributions fa !! "f" = Some [("x", 1%nat); ("{}", 1%nat)] ∧
    distinct_counts fa !! "f" = Some 1%nat ∧
    ¬ composite_excluded string_then_mapping fa "f".
Proof.
  eexists _, _. split; [vm_compute; reflexivity |].
  split; [reflexivity |]. split; [reflexivity |].
  split; [vm_compute; reflexivity |]. split; [vm_compute; reflexivity |].
  intros Hclaim. destruct Hclaim as [Htable _]; [|discriminate Htable].
  apply Exists_cons. right. apply Exists_cons. left. exact I.
Qed.

(** C1, amended.  On a sample whose values can be hashed, for every field
    other than [_id] that occurs in the sample, the frequency table is
    computed exactly when the first sampled value of the field is scalar,
    from all the sampled values of the field; the distinct count is the
    size of the set of the scalar values among them, which holds one value
    for each class of equal values, composite values being left out one by
    one.  A field whose sampled values are all composite has no table and
    a distinct count of 0. *)
Theorem table_follows_first_value `{builtins : Builtins} (db : database)
    (name : string) (n : Z) (cs : collstats) (docs : list document) :
  serves db name n cs docs → docs ≠ [] →
  hashable_sample (take 100 docs) →
  ∃ st fa, get_detailed_collection_stats db name = Ok st ∧
    field_analysis st = Some fa ∧
    ∀ field, field ≠ "_id" →
      (∃ doc, doc ∈ take 100 docs ∧ contains doc field) →
      ∃ first rest distinct,
        field_values (take 100 docs) field = first :: rest ∧
        value_distributions fa !! field
        = (if is_dict_or_list first then None
           else Some (sorted_values (first :: rest))) ∧
        set_of (filter (λ v, ¬ is_dict_or_list v) (first :: rest))
        = Ok distinct ∧
        holds_once (filter (λ v, ¬ is_dict_or_list v) (first :: rest))
                   distinct ∧
        distinct_counts fa !! field = Some (length distinct) ∧
        (Forall (λ v, is_dict_or_list v) (first :: rest) →
         value_distributions fa !! field = None ∧
         distinct_counts fa !! field = Some 0%nat).
Proof.
  intros Hserves Hne Hsample.
  destruct (get_detailed_sample db name n cs docs Hserves Hne Hsample)
    as (st & fa & Hst & _ & Hfa & Hdesc).
  exists st, fa. split; [done |]. split; [done |].
  intros field Hid (doc & Hdoc & Hkey).
  assert (Hin : field ∈ all_fields (take 100 docs)).
  { apply elem_of_all_fields. exists doc. split; [done |].
    by apply contains_keys. }
  destruct (field_values_cons _ _ Hin) as (first & rest & Hvalues).
  pose proof (described_distinct _ _ Hdesc field) as Hdistinct.
  rewrite decide_True in Hdistinct by done.
  destruct Hdistinct as (distinct & Hset & Hdistinct).
  rewrite distinct_values_scalars, Hvalues in Hset.
  exists first, rest, distinct. split; [done |].
  assert (Htable : value_distributions fa !! field
                   = if is_dict_or_list first then None
                     else Some (sorted_values (first :: rest))).
  { rewrite (described_distributions _ _ Hdesc). unfold has_table.
    rewrite Hvalues, bool_decide_true by done. simpl.
    destruct (is_dict_or_list first); simpl.
    - rewrite decide_False; [done | by intros [_ ?]].
    - by rewrite decide_True. }
  split; [done |]. split; [done |].
  split; [by apply set_of_holds_once |]. split; [done |].
  intros Hall. split.
  - rewrite Htable. apply Forall_cons in Hall as [Hfirst _].
    by destruct (is_dict_or_list first).
  - rewrite Hdistinct. rewrite filter_scalars_nil in Hset by done.
    by injection Hset as <-.
Qed.

Lemma table_follows_first_value_witness :
  serves (serving string_then_mapping) "c" 2 some_collstats
    string_then_mapping ∧
  string_then_mapping ≠ [] ∧
  hashable_sample (take 100 string_then_mapping) ∧
  ∃ st fa,
    get_detailed_collection_stats (serving string_then_mapping) "c" = Ok st ∧
    field_analysis st = Some fa ∧
    ∀ field, field ≠ "_id" →
      (∃ doc, doc ∈ take 100 string_then_mapping ∧ contains doc field) →
      ∃ first rest distinct,
        field_values (take 100 string_then_mapping) field = first :: rest ∧
        value_distributions fa !! field
        = (if is_dict_or_list first then None
           else Some (sorted_values (first :: rest))) ∧
        set_of (filter (λ v, ¬ is_dict_or_list v) (first :: rest))
        = Ok distinct ∧
        holds_once (filter (λ v, ¬ is_dict_or_list v) (first :: rest))
                   distinct ∧
        distinct_counts fa !! field = Some (length distinct) ∧
        (Forall (λ v, is_dict_or_list v) (first :: rest) →
         value_distributions fa !! field = None ∧
         distinct_counts fa !! field = Some 0%nat).
Proof.
  assert (Hserves : serves (serving string_then_mapping) "c" 2 some_collstats
                      string_then_mapping).
  { repeat split; reflexivity. }
  assert (Hne : string_then_mapping ≠ []) by discriminate.
  assert (Hsample : hashable_sample (take 100 string_then_mapping)) by exact I.
  split; [exact Hserves |]. split; [exact Hne |].
  split; [exact Hsample |].
  exact (table_follows_first_value (serving string_then_mapping) "c" 2
           some_collstats string_then_mapping Hserves Hne Hsample).
Defined.

(** *** The key [_id] *)

(** C2 as stated fails on the three records of the scenario: [_id] is a
    key of the type histogram. *)
Lemma id_never_reported_counterexample :
  ∃ st fa,
    get_detailed_collection_stats (serving three_records) "c" = Ok st ∧
    field_analysis st = Some fa ∧
    field_types fa !! "_id" = Some [("ObjectId", 3%nat)] ∧
    ¬ id_never_reported fa.
Proof.
  eexists _, _. split; [vm_compute; reflexivity |].
  split; [reflexivity |]. split; [vm_compute; reflexivity |].
  intros (_ & Htypes & _). discriminate Htypes.
Qed.

(** C2, amended.  In the report of a sample whose values can be hashed,
    [_id] is never a key of the coverage mapping, of the frequency tables
    or of the distinct counts.  The type histogram has no
    such guard: [_id] is one of its keys whenever a sampled record holds
    [_id]; the page skips that key when it shows the table (line 376). *)
Theorem id_only_in_type_histogram `{builtins : Builtins} (db : database)
    (name : string) (n : Z) (cs : collstats) (docs : list document) :
  serves db name n cs docs → docs ≠ [] →
  hashable_sample (take 100 docs) →
  ∃ st fa, get_detailed_collection_stats db name = Ok st ∧
    field_analysis st = Some fa ∧
    field_coverage fa !! "_id" = None ∧
    value_distributions fa !! "_id" = None ∧
    distinct_counts fa !! "_id" = None ∧
    (is_Some (field_types fa !! "_id")
     ↔ ∃ doc, doc ∈ take 100 docs ∧ contains doc "_id").
Proof.
  intros Hserves Hne Hsample.
  destruct (get_detailed_sample db name n cs docs Hserves Hne Hsample)
    as (st & fa & Hst & _ & Hfa & Hdesc).
  exists st, fa. split; [done |]. split; [done |].
  split; [|split; [|split]].
  - apply (described_coverage _ _ Hdesc "_id"). by intros [_ ?].
  - rewrite (described_distributions _ _ Hdesc). unfold has_table.
    rewrite bool_decide_false by (by intros ?). simpl.
    rewrite decide_False; [done | by intros [_ ?]].
  - pose proof (described_distinct _ _ Hdesc "_id") as Hdistinct.
    rewrite decide_False in Hdistinct; [done | by intros [_ ?]].
  - rewrite (described_types _ _ Hdesc).
    destruct (decide ("_id" ∈ all_fields (take 100 docs))) as [Hin|Hout].
    + split; [|by eauto]. intros _.
      apply elem_of_all_fields in Hin as (doc & Hdoc & Hkey).
      exists doc. split; [done | by apply contains_keys].
    + split; [by intros [? ?] |]. intros (doc & Hdoc & Hkey).
      exfalso. apply Hout, elem_of_all_fields. exists doc.
      split; [done | by apply contains_keys].
Qed.

Lemma id_only_in_type_histogram_witness :
  serves (serving three_records) "c" 3 some_collstats three_records ∧
  three_records ≠ [] ∧
  hashable_sample (take 100 three_records) ∧
  ∃ st fa, get_detailed_collection_stats (serving three_records) "c" = Ok st ∧
    field_analysis st = Some fa ∧
    field_coverage fa !! "_id" = None ∧
    value_distributions fa !! "_id" = None ∧
    distinct_counts fa !! "_id" = None ∧
    (is_Some (field_types fa !! "_id")
     ↔ ∃ doc, doc ∈ take 100 three_records ∧ contains doc "_id").
Proof.
  assert (Hserves : serves (serving three_records) "c" 3 some_collstats
                      three_records).
  { repeat split; reflexivity. }
  assert (Hne : three_records ≠ []) by discriminate.
  assert (Hsample : hashable_sample (take 100 three_records)) by exact I.
  split; [exact Hserves |]. split; [exact Hne |].
  split; [exact Hsample |].
  exact (id_only_in_type_histogram (serving three_records) "c" 3
           some_collstats three_records Hserves Hne Hsample).
Defined.

(** *** The field count *)




(** *** The empty collection *)

(** C4. When the collection is empty (the count is 0 and the unfiltered
    fetch returns no record), [get_detailed_collection_stats] raises
    nothing and returns a report whose document count is 0 and in which no
    field is analysed: the page reads a field count of 0 from it, and the
    session keeps the report without an error message. *)
Theorem empty_collection_report `{builtins : Builtins} (db : database)
    (name : string) (cs : collstats) (previous : option stats) :
  serves db name 0 cs [] →
  ∃ st, get_detailed_collection_stats db name = Ok st ∧
        doc_count st = 0 ∧
        shown_field_count st = 0%nat ∧
        field_analysis st = None ∧
        on_collection_selected db name previous = (Some st, None).
Proof.
  intros Hserves.
  destruct (get_detailed_empty db name 0 cs Hserves) as (st & Hst & Hn & Hfa).
  exists st. repeat split; try done.
  - unfold shown_field_count. by rewrite Hfa.
  - unfold on_collection_selected. by rewrite Hst.
Qed.

Lemma empty_collection_report_witness :
  serves (serving []) "c" 0 some_collstats [] ∧
  ∃ st, get_detailed_collection_stats (serving []) "c" = Ok st ∧
        doc_count st = 0 ∧
        shown_field_count st = 0%nat ∧
        field_analysis st = None ∧
        on_collection_selected (serving []) "c" None = (Some st, None).
Proof.
  assert (Hserves : serves (serving []) "c" 0 some_collstats []).
  { repeat split; reflexivity. }
  split; [exact Hserves |].
  exact (empty_collection_report (serving []) "c" some_collstats None Hserves).
Defined.

(** *** Collaborator errors *)

(** C5. The first of the three collaborator calls (document count,
    collection stats, sample fetch) that raises makes
    [get_detailed_collection_stats] raise the same exception: no report is
    returned, the handler shows the original message and leaves the session
    as it was.  Conversely a report is returned only when all three calls
    returned, and its document count is the collaborator's. *)
Theorem collaborator_errors_propagate `{builtins : Builtins} (db : database)
    (name : string) :
  (∀ e previous,
     count_documents (db_collection db name) NoFilter = Raise e ∨
     (∃ n, count_documents (db_collection db name) NoFilter = Ok n ∧
           command_collstats db name = Raise e) ∨
     (∃ n cs, count_documents (db_collection db name) NoFilter = Ok n ∧
              command_collstats db name = Ok cs ∧
              find (db_collection db name) = Raise e) →
     get_detailed_collection_stats db name = Raise e ∧
     on_collection_selected db name previous
     = (previous, Some ("Error: " +:+ e))) ∧
  (∀ st, get_detailed_collection_stats db name = Ok st →
     ∃ cs docs, serves db name (doc_count st) cs docs).
Proof.
  split.
  - intros e previous Hraise.
    assert (Hget : get_detailed_collection_stats db name = Raise e).
    { unfold get_detailed_collection_stats, limit.
      destruct Hraise as [Hn|[(n & Hn & Hcs)|(n & cs & Hn & Hcs & Hdocs)]].
      - by rewrite Hn.
      - by rewrite Hn, Hcs.
      - by rewrite Hn, Hcs, Hdocs. }
    split; [done |]. unfold on_collection_selected. by rewrite Hget.
  - intros st. unfold get_detailed_collection_stats, limit, serves.
    destruct (count_documents _ NoFilter) as [n|e]; [|done].
    destruct (command_collstats db name) as [cs|e]; [|done].
    destruct (find _) as [docs|e]; [|done]. simpl.
    destruct (take 100 docs) as [|doc sample]; simpl.
    + intros [= <-]. simpl. by exists cs, docs.
    + destruct (analyse_fields (doc :: sample)) as [fa|e]; simpl; [|done].
      intros [= <-]. simpl. by exists cs, docs.
Qed.

Lemma collaborator_errors_propagate_witness :
  let db := failing (Ok 7) (Raise "connection refused") (Ok []) in
  get_detailed_collection_stats db "c" = Raise "connection refused" ∧
  on_collection_selected db "c" None
  = (None, Some "Error: connection refused").
Proof.
  intros db.
  apply (proj1 (collaborator_errors_propagate db "c")).
  right. left. exists 7. split; reflexivity.
Defined.

(** *** Coverage *)

(** C6. A report exists for the samples whose values can be hashed.  For
    such a sample that is not empty, every reported field has
    [coverage_pct] equal to [count / len(sample_docs) * 100] in binary64
    arithmetic, where [count] is the number of sampled records holding the
    field; the division raises nothing, [0 <= coverage_pct <= 100] and
    [count <= len(sample_docs)].  For an empty sample the report is
    returned without any field entry, so no coverage is computed and no
    division takes place. *)
Theorem coverage_bounds `{builtins : Builtins} (db : database)
    (name : string) (n : Z) (cs : collstats) (docs : list document) :
  serves db name n cs docs → hashable_sample (take 100 docs) →
  ∃ st, get_detailed_collection_stats db name = Ok st ∧
    (docs = [] → field_analysis st = None) ∧
    (∀ fa field e,
       field_analysis st = Some fa → field_coverage fa !! field = Some e →
       let sample_docs := take 100 docs in
       count e = presence sample_docs field ∧
       (count e ≤ length sample_docs)%nat ∧
       ∃ q, int_truediv (Z.of_nat (count e)) (Z.of_nat (length sample_docs))
            = Ok q ∧
            coverage_pct e = float_mul_int q 100 ∧
            SFleb zero (coverage_pct e) = true ∧
            SFleb (coverage_pct e) hundred = true).
Proof.
  intros Hserves Hsample. destruct docs as [|doc docs].
  - destruct (get_detailed_empty db name n cs Hserves) as (st & Hst & _ & Hfa).
    exists st. split; [done |]. split; [done |].
    intros fa field e Hsome. by rewrite Hfa in Hsome.
  - destruct (get_detailed_sample db name n cs (doc :: docs) Hserves)
      as (st & fa & Hst & _ & Hfa & Hdesc); [done | done |].
    exists st. split; [done |]. split; [done |].
    intros fa' field e Hsome Hlook. rewrite Hfa in Hsome.
    injection Hsome as <-.
    destruct (described_coverage _ _ Hdesc field) as [Hyes Hno].
    destruct (decide (field ∈ all_fields (take 100 (doc :: docs))
                      ∧ field ≠ "_id")) as [Hin|Hout].
    + destruct (Hyes Hin) as (q & Hq & H0 & H100 & Hentry).
      rewrite Hentry in Hlook. injection Hlook as <-.
      cbn [count coverage_pct entry]. split; [done |].
      split; [apply presence_le |]. by exists q.
    + rewrite (Hno Hout) in Hlook. discriminate.
Qed.

Lemma coverage_bounds_witness :
  serves (serving three_records) "c" 3 some_collstats three_records ∧
  hashable_sample (take 100 three_records) ∧
  ∃ st, get_detailed_collection_stats (serving three_records) "c" = Ok st ∧
    (three_records = [] → field_analysis st = None) ∧
    (∀ fa field e,
       field_analysis st = Some fa → field_coverage fa !! field = Some e →
       let sample_docs := take 100 three_records in
       count e = presence sample_docs field ∧
       (count e ≤ length sample_docs)%nat ∧
       ∃ q, int_truediv (Z.of_nat (count e)) (Z.of_nat (length sample_docs))
            = Ok q ∧
            coverage_pct e = float_mul_int q 100 ∧
            SFleb zero (coverage_pct e) = true ∧
            SFleb (coverage_pct e) hundred = true).
Proof.
  assert (Hserves : serves (serving three_records) "c" 3 some_collstats
                      three_records).
  { repeat split; reflexivity. }
  assert (Hsample : hashable_sample (take 100 three_records)) by exact I.
  split; [exact Hserves |]. split; [exact Hsample |].
  exact (coverage_bounds (serving three_records) "c" 3 some_collstats
           three_records Hserves Hsample).
Defined.

(** *** The frequency table *)

(** C7. In the report of a sample whose values can be hashed, whenever a
    field has a frequency table, the table counts the
    sampled values of the field by their string form [str(val)], so that
    the integer 1 and the string "1" fall in one bucket; it has
    [min(10, number of distinct string forms)] entries, in descending order
    of count; of two entries with the same count, the one whose string
    form was met first comes first; and no bucket left out has a greater
    count than a bucket kept. *)
Theorem frequency_table_shape `{builtins : Builtins} (db : database)
    (name : string) (n : Z) (cs : collstats) (docs : list document) :
  serves db name n cs docs → docs ≠ [] →
  hashable_sample (take 100 docs) →
  ∃ st fa, get_detailed_collection_stats db name = Ok st ∧
    field_analysis st = Some fa ∧
    str (VInt 1) = str (VStr "1") ∧
    ∀ field table, value_distributions fa !! field = Some table →
      let strs := str <$> field_values (take 100 docs) field in
      length table = (10 `min` size (list_to_set strs : gset string))%nat ∧
      StronglySorted count_ge table ∧
      NoDup table.*1 ∧
      (∀ k c, (k, c) ∈ table → k ∈ strs ∧ c = occurrences k strs) ∧
      (∀ x y, [x; y] `sublist_of` table → x.2 = y.2 →
         ∃ l1 l2, strs = l1 ++ x.1 :: l2 ∧ y.1 ∉ l1) ∧
      (∀ k, k ∈ strs → k ∉ table.*1 →
         ∀ x, x ∈ table → (occurrences k strs ≤ x.2)%nat).
Proof.
  intros Hserves Hne Hsample.
  destruct (get_detailed_sample db name n cs docs Hserves Hne Hsample)
    as (st & fa & Hst & _ & Hfa & Hdesc).
  exists st, fa. split; [done |]. split; [done |]. split; [done |].
  intros field table Htable.
  rewrite (described_distributions _ _ Hdesc) in Htable.
  destruct (decide _) in Htable; [|discriminate].
  injection Htable as <-. apply sorted_values_shape.
Qed.

Lemma frequency_table_shape_witness :
  serves (serving three_records) "c" 3 some_collstats three_records ∧
  three_records ≠ [] ∧
  hashable_sample (take 100 three_records) ∧
  ∃ st fa, get_detailed_collection_stats (serving three_records) "c" = Ok st ∧
    field_analysis st = Some fa ∧
    str (VInt 1) = str (VStr "1") ∧
    ∀ field table, value_distributions fa !! field = Some table →
      let strs := str <$> field_values (take 100 three_records) field in
      length table = (10 `min` size (list_to_set strs : gset string))%nat ∧
      StronglySorted count_ge table ∧
      NoDup table.*1 ∧
      (∀ k c, (k, c) ∈ table → k ∈ strs ∧ c = occurrences k strs) ∧
      (∀ x y, [x; y] `sublist_of` table → x.2 = y.2 →
         ∃ l1 l2, strs = l1 ++ x.1 :: l2 ∧ y.1 ∉ l1) ∧
      (∀ k, k ∈ strs → k ∉ table.*1 →
         ∀ x, x ∈ table → (occurrences k strs ≤ x.2)%nat).
Proof.
  assert (Hserves : serves (serving three_records) "c" 3 some_collstats
                      three_records).
  { repeat split; reflexivity. }
  assert (Hne : three_records ≠ []) by discriminate.
  assert (Hsample : hashable_sample (take 100 three_records)) by exact I.
  split; [exact Hserves |]. split; [exact Hne |].
  split; [exact Hsample |].
  exact (frequency_table_shape (serving three_records) "c" 3 some_collstats
           three_records Hserves Hne Hsample).
Defined.

(** *** The exact analysis of one field *)

(** C8. The "Analyze Field" action reports, as the number of documents
    with the field, the collaborator's count under the existence filter;
    as coverage, that count divided by the total document count and
    multiplied by 100, or the integer 0 when the collection has no
    document; and as the number of unique values, the length of the list
    returned by the collaborator's [distinct].  It never reads the
    documents fetched by [find]: any two handles that agree on
    [count_documents] and [distinct] give the same figures. *)
Theorem exact_field_analysis (collection : collection) (field : string)
    (n k : Z) (values : list value) :
  count_documents collection NoFilter = Ok n →
  count_documents collection (FieldExists field) = Ok k →
  distinct collection field = Ok values →
  (n ≤ 0 →
   analyze_field collection field
   = Ok {| coverage := NInt 0; documents_with_field := k;
           unique_values := length values |}) ∧
  (0 < n → ∀ q, int_truediv k n = Ok q →
   analyze_field collection field
   = Ok {| coverage := NFloat (float_mul_int q 100);
           documents_with_field := k;
           unique_values := length values |}) ∧
  (∀ other : Mongo.collection,
     count_documents other = count_documents collection →
     distinct other = distinct collection →
     analyze_field other field = analyze_field collection field).
Proof.
  intros Hn Hk Hvalues. unfold analyze_field.
  split; [|split].
  - intros Hle. rewrite Hn, Hk. simpl.
    destruct (0 <? n) eqn:Hlt; [apply Z.ltb_lt in Hlt; lia |].
    simpl. by rewrite Hvalues.
  - intros Hlt q Hq. rewrite Hn, Hk. simpl.
    apply Z.ltb_lt in Hlt. rewrite Hlt, Hq. simpl. by rewrite Hvalues.
  - intros other Hcount Hdistinct. by rewrite Hcount, Hdistinct.
Qed.

Lemma exact_field_analysis_witness :
  let collection := db_collection (serving three_records) "c" in
  count_documents collection NoFilter = Ok 3 ∧
  count_documents collection (FieldExists "b") = Ok 2 ∧
  distinct collection "b" = Ok [VStr "x"; VStr "y"] ∧
  int_truediv 2 3 = Ok (S754_finite false 6004799503160661 (-53)) ∧
  analyze_field collection "b"
  = Ok {| coverage := NFloat (S754_finite false 4691249611844266 (-46));
          documents_with_field := 2;
          unique_values := 2 |}.
Proof.
  intros collection.
  assert (Hn : count_documents collection NoFilter = Ok 3) by reflexivity.
  assert (Hk : count_documents collection (FieldExists "b") = Ok 2)
    by reflexivity.
  assert (Hvalues : distinct collection "b" = Ok [VStr "x"; VStr "y"])
    by reflexivity.
  assert (Hq : int_truediv 2 3 = Ok (S754_finite false 6004799503160661 (-53)))
    by reflexivity.
  split; [exact Hn |]. split; [exact Hk |]. split; [exact Hvalues |].
  split; [exact Hq |].
  destruct (exact_field_analysis collection "b" 3 2 [VStr "x"; VStr "y"]
              Hn Hk Hvalues) as (_ & Hcoverage & _).
  exact (Hcoverage eq_refl _ Hq).
Defined.

(** *** The type histogram *)

(** C9. In the report of a sample whose values can be hashed, for every
    field other than [_id] that occurs in the sample, the counts of its
    type histogram add up to its presence count: each sampled
    record holding the field is tallied once, under the name of the type
    of its value, and a type name heads one entry only. *)
Theorem type_histogram_total `{builtins : Builtins} (db : database)
    (name : string) (n : Z) (cs : collstats) (docs : list document) :
  serves db name n cs docs → docs ≠ [] →
  hashable_sample (take 100 docs) →
  ∃ st fa, get_detailed_collection_stats db name = Ok st ∧
    field_analysis st = Some fa ∧
    ∀ field, field ≠ "_id" →
      (∃ doc, doc ∈ take 100 docs ∧ contains doc field) →
      ∃ e histogram,
        field_coverage fa !! field = Some e ∧
        field_types fa !! field = Some histogram ∧
        sum_list histogram.*2 = count e ∧
        NoDup histogram.*1 ∧
        ∀ t c, (t, c) ∈ histogram →
          c = occurrences t (type_name <$> field_values (take 100 docs) field).
Proof.
  intros Hserves Hne Hsample.
  destruct (get_detailed_sample db name n cs docs Hserves Hne Hsample)
    as (st & fa & Hst & _ & Hfa & Hdesc).
  exists st, fa. split; [done |]. split; [done |].
  intros field Hid (doc & Hdoc & Hkey).
  assert (Hin : field ∈ all_fields (take 100 docs)).
  { apply elem_of_all_fields. exists doc. split; [done |].
    by apply contains_keys. }
  destruct (described_coverage _ _ Hdesc field) as [Hyes _].
  destruct Hyes as (q & _ & _ & _ & Hentry); [done |].
  exists (entry (take 100 docs) field q), (type_counts (take 100 docs) field).
  split; [done |]. split.
  { rewrite (described_types _ _ Hdesc). by rewrite decide_True. }
  rewrite type_counts_tally.
  pose proof (tallies_foldl (type_name <$> field_values (take 100 docs) field))
    as [Hnd Hcount _ _].
  split; [|split; [done |]].
  - rewrite sum_foldl_incr. simpl.
    by rewrite length_fmap, length_field_values.
  - intros t c Htc. by apply Hcount in Htc as [_ ->].
Qed.

Lemma type_histogram_total_witness :
  serves (serving three_records) "c" 3 some_collstats three_records ∧
  three_records ≠ [] ∧
  hashable_sample (take 100 three_records) ∧
  ∃ st fa, get_detailed_collection_stats (serving three_records) "c" = Ok st ∧
    field_analysis st = Some fa ∧
    ∀ field, field ≠ "_id" →
      (∃ doc, doc ∈ take 100 three_records ∧ contains doc field) →
      ∃ e histogram,
        field_coverage fa !! field = Some e ∧
        field_types fa !! field = Some histogram ∧
        sum_list histogram.*2 = count e ∧
        NoDup histogram.*1 ∧
        ∀ t c, (t, c) ∈ histogram →
          c = occurrences t
                (type_name <$> field_values (take 100 three_records) field).
Proof.
  assert (Hserves : serves (serving three_records) "c" 3 some_collstats
                      three_records).
  { repeat split; reflexivity. }
  assert (Hne : three_records ≠ []) by discriminate.
  assert (Hsample : hashable_sample (take 100 three_records)) by exact I.
  split; [exact Hserves |]. split; [exact Hne |].
  split; [exact Hsample |].
  exact (type_histogram_total (serving three_records) "c" 3 some_collstats
           three_records Hserves Hne Hsample).
Defined.

(** *** Distinct counts against table entries *)

(** C10. The distinct count compares the values themselves ([1 == "1"] is
    false) while the frequency table merges values by string form
    ([str(1) == str("1")]): for the sample whose field [f] holds the
    integer 1 in one record and the string "1" in the next, the distinct
    count, 2, exceeds the number of entries of the table, 1. *)
Theorem distinct_count_exceeds_table `{builtins : Builtins} :
  py_eq (VInt 1) (VStr "1") = false ∧
  str (VInt 1) = str (VStr "1") ∧
  ∃ st fa table distinct_count,
    get_detailed_collection_stats (serving one_and_one) "c"
    = Ok st ∧
    field_analysis st = Some fa ∧
    field_values one_and_one "f" = [VInt 1; VStr "1"] ∧
    value_distributions fa !! "f" = Some table ∧
    distinct_counts fa !! "f" = Some distinct_count ∧
    table = [("1", 2%nat)] ∧
    distinct_count = 2%nat ∧
    (length table < distinct_count)%nat.
Proof.
  split; [done |]. split; [done |].
  destruct (get_detailed_sample (serving one_and_one) "c"
              2 some_collstats one_and_one) as (st & fa & Hst & _ & Hfa & Hdesc);
    [done | done | exact I |].
  exists st, fa, [("1", 2%nat)], 2%nat.
  split; [done |]. split; [done |]. split; [done |].
  split; [|split; [|split; [done | split; [done | simpl; lia]]]].
  - rewrite (described_distributions _ _ Hdesc).
    rewrite decide_True; [done |]. split; [|done].
    apply elem_of_all_fields. eexists. split; [left |].
    apply list_elem_of_fmap. by exists ("f", VInt 1); split; [|right; left].
  - pose proof (described_distinct _ _ Hdesc "f") as Hdistinct.
    rewrite decide_True in Hdistinct.
    + destruct Hdistinct as (values & Hvalues & ->).
      vm_compute in Hvalues. by injection Hvalues as <-.
    + split; [|done].
      apply elem_of_all_fields. eexists. split; [left |].
      apply list_elem_of_fmap. by exists ("f", VInt 1); split; [|right; left].
Qed.

(** ** Further properties of the two scripts

    The statements of this part are read off the code: the report again,
    then the popup that displays it, the pages of the "View Data" tab, the
    older explorer, and the "Field Analysis", "Search" and "Export" tabs.
    Each statement with a hypothesis is followed by its instance on a
    sample.  Where a statement speaks of the report, it is for the samples
    whose values line 178 can hash; the first statement is about the
    others. *)

Import Measures Popup Pages Paging Legacy FieldTab Searching Exporting.
Import Scenarios.

(** *** Coverage values and counts *)

Section ReportFacts.
Context `{builtins : Builtins}.

Lemma coverage_order_table : forallb coverage_ordered (seq 1 100) = true.
Proof. vm_compute. reflexivity. Qed.

Lemma coverage_ordered_spec (n c1 c2 : nat) :
  (0 < n ≤ 100)%nat → (c1 ≤ n)%nat → (c2 ≤ n)%nat →
  SFltb zero (coverage_of c1 n) = (0 <? c1)%nat ∧
  SFeqb (coverage_of c1 n) hundred = (c1 =? n)%nat ∧
  SFleb (coverage_of c1 n) (coverage_of c2 n) = (c1 <=? c2)%nat.
Proof.
  intros Hn H1 H2. pose proof coverage_order_table as Ht.
  rewrite forallb_forall in Ht. specialize (Ht n).
  unfold coverage_ordered in Ht. rewrite forallb_forall in Ht.
  assert (Hin : ∀ c, (c ≤ n)%nat →
            In (c, coverage_of c n)
               ((λ c, (c, coverage_of c n)) <$> seq 0 (S n))).
  { intros c Hc. apply (in_map (λ c, (c, coverage_of c n))).
    apply in_seq. lia. }
  specialize (Ht ltac:(apply in_seq; lia) _ (Hin c1 H1)). cbv beta iota in Ht.
  apply andb_true_iff in Ht as [Ht Hle].
  apply andb_true_iff in Ht as [Hpos Hfull].
  rewrite forallb_forall in Hle. specialize (Hle _ (Hin c2 H2)).
  cbv beta iota in Hle.
  apply Bool.eqb_prop in Hpos, Hfull, Hle. done.
Qed.

Lemma presence_pos (docs : list document) (field : string) :
  field ∈ all_fields docs → (1 ≤ presence docs field)%nat.
Proof.
  intros Hin. destruct (field_values_cons _ _ Hin) as (first & rest & Hv).
  rewrite <- length_field_values, Hv. simpl. lia.
Qed.

Lemma coverage_entry_inv (sample_docs : list document) (fa : field_stats)
    (field : string) (e : coverage_entry) :
  (0 < length sample_docs)%nat →
  describes sample_docs fa → field_coverage fa !! field = Some e →
  field ∈ all_fields sample_docs ∧ field ≠ "_id" ∧
  count e = presence sample_docs field ∧
  coverage_pct e
  = coverage_of (presence sample_docs field) (length sample_docs).
Proof.
  intros Hlen Hdesc Hlook.
  destruct (described_coverage _ _ Hdesc field) as [Hyes Hno].
  destruct (decide (field ∈ all_fields sample_docs ∧ field ≠ "_id"))
    as [Hin|Hout]; [|by rewrite (Hno Hout) in Hlook].
  destruct (Hyes Hin) as (q & Hq & _ & _ & Hentry).
  rewrite Hentry in Hlook. injection Hlook as <-.
  destruct Hin as [Hin Hid]. repeat split; try done.
  unfold coverage_of. by rewrite Hq.
Qed.

Lemma length_foldl_set_insert (values acc : list value) :
  (length acc ≤ length (foldl set_insert acc values)
   ≤ length acc + length values)%nat.
Proof.
  revert acc. induction values as [|v values IH]; intros acc; simpl; [lia |].
  specialize (IH (set_insert acc v)). unfold set_insert in *.
  destruct (existsb (py_eq v) acc); [lia |].
  rewrite length_app in IH. simpl in IH. lia.
Qed.

Lemma set_of_length (values s : list value) :
  set_of values = Ok s →
  (length s ≤ length values)%nat ∧ (length s = 0%nat ↔ values = []).
Proof.
  intros [_ ->]%set_of_Ok. split.
  - pose proof (length_foldl_set_insert values []) as Hle. simpl in Hle. lia.
  - split; [|by intros ->]. destruct values as [|v values]; [done |].
    simpl. intros Hlen.
    pose proof (length_foldl_set_insert values (set_insert [] v)) as Hle.
    unfold set_insert in *. simpl in *. lia.
Qed.

Lemma scalars_nil_iff (values : list value) :
  scalars values = [] ↔ Forall (λ v, is_dict_or_list v) values.
Proof.
  unfold scalars. split.
  - induction values as [|v values IH]; [done |].
    rewrite filter_cons. destruct (decide (¬ is_dict_or_list v)) as [|Hd];
      [done |].
    intros Hnil. constructor; [|by apply IH].
    destruct (is_dict_or_list v); [done |]. exfalso. apply Hd. by intros ?.
  - apply filter_scalars_nil.
Qed.

Lemma sum_list_app (l k : list nat) :
  sum_list (l ++ k) = (sum_list l + sum_list k)%nat.
Proof. induction l as [|x l IH]; simpl; [done |]. rewrite IH. lia. Qed.

Lemma sum_list_Permutation (l k : list nat) :
  l ≡ₚ k → sum_list l = sum_list k.
Proof. induction 1; simpl; lia. Qed.

Lemma sum_list_pos (l : list nat) :
  Forall (λ c, 1 ≤ c)%nat l → l ≠ [] → (1 ≤ sum_list l)%nat.
Proof. destruct 1; [done |]. simpl. lia. Qed.

Lemma occurrences_pos (k : string) (l : list string) :
  k ∈ l → (1 ≤ occurrences k l)%nat.
Proof.
  intros Hin. apply list_elem_of_split in Hin as (l1 & l2 & ->).
  unfold occurrences. rewrite filter_app, filter_cons_True by done.
  rewrite length_app. simpl. lia.
Qed.

Lemma length_value_counts (values : list value) :
  length (value_counts values)
  = size (list_to_set (str <$> values) : gset string).
Proof.
  rewrite value_counts_tally.
  pose proof (tallies_foldl (str <$> values)) as [Hnd Hcount Hkey _].
  set (T := foldl incr [] (str <$> values)) in *.
  rewrite <- (length_fmap fst T), <- (size_list_to_set (C := gset string))
    by done.
  f_equal. apply set_eq. intros k. rewrite !elem_of_list_to_set.
  rewrite list_elem_of_fmap. split.
  - intros ([k' c] & -> & Hin). by apply Hcount in Hin as [? _].
  - intros Hk. exists (k, occurrences k (str <$> values)).
    split; [done | by apply Hkey].
Qed.

Lemma sorted_values_sum (values : list value) :
  (sum_list (sorted_values values).*2 ≤ length values)%nat ∧
  (sum_list (sorted_values values).*2 = length values
   ↔ (size (list_to_set (str <$> values) : gset string) ≤ 10)%nat).
Proof.
  rewrite <- length_value_counts. unfold sorted_values.
  pose proof (tallies_foldl (str <$> values)) as [_ Hcount _ _].
  rewrite <- value_counts_tally in Hcount.
  set (T := value_counts values) in *.
  pose proof (sorted_desc_Permutation T) as Hperm.
  assert (Hsum : (sum_list (take 10 (sorted_desc T)).*2
                  + sum_list (drop 10 (sorted_desc T)).*2
                  = length values)%nat).
  { rewrite <- sum_list_app, <- fmap_app, take_drop.
    rewrite (sum_list_Permutation _ T.*2) by (by rewrite Hperm).
    unfold T. rewrite value_counts_tally, sum_foldl_incr. simpl.
    by rewrite length_fmap. }
  rewrite <- (Permutation_length Hperm).
  destruct (decide (length (sorted_desc T) ≤ 10)%nat) as [Hle|Hgt].
  - rewrite (drop_ge _ _ Hle) in Hsum. simpl in Hsum. lia.
  - assert (Hpos : (1 ≤ sum_list (drop 10 (sorted_desc T)).*2)%nat).
    { apply sum_list_pos.
      - apply Forall_fmap, Forall_forall. intros [k c] Hin. simpl.
        assert (HinT : (k, c) ∈ T).
        { rewrite <- Hperm. eapply elem_of_sublist; [exact Hin |].
          apply sublist_drop. }
        apply Hcount in HinT as [Hk ->]. by apply occurrences_pos.
      - intros Hnil. apply fmap_nil_inv, drop_nil_inv in Hnil. lia. }
    lia.
Qed.

End ReportFacts.

(** A report is returned exactly when line 178 can hash every value it
    meets.  A sample with a [Decimal128], a [Regex] or a [Code] among the
    scalar values of a field other than [_id] makes the function raise;
    the handler shows the message and the session keeps the report it
    had. *)
Theorem unhashable_value_gives_no_report `{builtins : Builtins}
    (db : database) (name : string)
    (n : Z) (cs : collstats) (docs : list document)
    (previous : option stats) :
  serves db name n cs docs →
  ((∃ st, get_detailed_collection_stats db name = Ok st)
   ↔ hashable_sample (take 100 docs)) ∧
  (¬ hashable_sample (take 100 docs) →
   ∃ e, get_detailed_collection_stats db name = Raise e ∧
        on_collection_selected db name previous
        = (previous, Some ("Error: " +:+ e))).
Proof.
  intros Hserves.
  assert (Hraise : ¬ hashable_sample (take 100 docs) →
            ∃ e, get_detailed_collection_stats db name = Raise e).
  { apply (get_detailed_Raise db name n cs docs Hserves). }
  split; [split |].
  - intros [st Hst].
    destruct (hashable_sample (take 100 docs)) eqn:Hsample; [done |].
    destruct Hraise as [e He]; [by intros [] |]. congruence.
  - intros Hsample. destruct docs as [|doc docs].
    + destruct (get_detailed_empty db name n cs Hserves) as (st & Hst & _).
      by exists st.
    + destruct (get_detailed_sample db name n cs (doc :: docs) Hserves)
        as (st & _ & Hst & _); [done | done |]. by exists st.
  - intros [e He]%Hraise. exists e. split; [done |].
    unfold on_collection_selected. by rewrite He.
Qed.

Lemma unhashable_value_gives_no_report_witness :
  let db := serving priced in
  let name := "c" in
  let previous := Some (counted 5) in
  serves db name 1 some_collstats priced ∧
  ¬ hashable_sample (take 100 priced) ∧
  ∃ e, get_detailed_collection_stats db name = Raise e ∧
       on_collection_selected db name previous
       = (previous, Some ("Error: " +:+ e)).
Proof.
  intros db name previous.
  assert (Hserves : serves db name 1 some_collstats priced).
  { repeat split; reflexivity. }
  assert (Hsample : ¬ hashable_sample (take 100 priced)) by (intros []).
  split; [exact Hserves |]. split; [exact Hsample |].
  exact (proj2 (unhashable_value_gives_no_report db name 1 some_collstats
                  priced previous Hserves) Hsample).
Defined.

(** A field of the coverage mapping occurs in the sample: its count is at
    least 1 and its coverage is above 0; the coverage, a binary64 number,
    equals 100 exactly when every sampled record holds the field. *)
Theorem coverage_full_iff_everywhere `{builtins : Builtins}
    (db : database) (name : string) (n : Z)
    (cs : collstats) (docs : list document) :
  serves db name n cs docs → docs ≠ [] →
  hashable_sample (take 100 docs) →
  ∃ st fa, get_detailed_collection_stats db name = Ok st ∧
    field_analysis st = Some fa ∧
    ∀ field e, field_coverage fa !! field = Some e →
      (1 ≤ count e)%nat ∧
      SFltb zero (coverage_pct e) = true ∧
      (SFeqb (coverage_pct e) hundred = true
       ↔ count e = length (take 100 docs)).
Proof.
  intros Hserves Hne Hsample.
  destruct (get_detailed_sample db name n cs docs Hserves Hne Hsample)
    as (st & fa & Hst & _ & Hfa & Hdesc).
  exists st, fa. split; [done |]. split; [done |].
  intros field e Hlook. pose proof (sample_bounds docs Hne) as Hlen.
  destruct (coverage_entry_inv _ _ _ _ (proj1 Hlen) Hdesc Hlook)
    as (Hin & _ & Hcount & Hpct).
  pose proof (presence_pos _ _ Hin) as Hpos.
  pose proof (presence_le (take 100 docs) field) as Hle.
  destruct (coverage_ordered_spec _ _ _ Hlen Hle Hle) as (H0 & H100 & _).
  rewrite Hcount, Hpct, H0, H100. split; [done |]. split.
  - apply Nat.ltb_lt. lia.
  - by rewrite Nat.eqb_eq.
Qed.

Lemma coverage_full_iff_everywhere_witness :
  let db := serving three_records in
  let name := "c" in
  let docs := three_records in
  serves db name 3 some_collstats docs ∧ docs ≠ [] ∧
  hashable_sample (take 100 docs) ∧
  ∃ st fa, get_detailed_collection_stats db name = Ok st ∧
    field_analysis st = Some fa ∧
    ∀ field e, field_coverage fa !! field = Some e →
      (1 ≤ count e)%nat ∧
      SFltb zero (coverage_pct e) = true ∧
      (SFeqb (coverage_pct e) hundred = true
       ↔ count e = length (take 100 docs)).
Proof.
  intros db name docs.
  assert (Hserves : serves db name 3 some_collstats docs).
  { repeat split; reflexivity. }
  assert (Hne : docs ≠ []) by discriminate.
  assert (Hsample : hashable_sample (take 100 docs)) by exact I.
  split; [exact Hserves |]. split; [exact Hne |]. split; [exact Hsample |].
  exact (coverage_full_iff_everywhere db name 3 some_collstats docs
           Hserves Hne
           Hsample).
Defined.

(** The popup sorts the fields by coverage (lines 351-355): on the
    rounded binary64 values this is the order of the counts, two fields
    having equal coverage only for equal counts. *)
Theorem coverage_order_is_count_order `{builtins : Builtins}
    (db : database) (name : string) (n : Z)
    (cs : collstats) (docs : list document) :
  serves db name n cs docs → docs ≠ [] →
  hashable_sample (take 100 docs) →
  ∃ st fa, get_detailed_collection_stats db name = Ok st ∧
    field_analysis st = Some fa ∧
    ∀ field1 field2 e1 e2,
      field_coverage fa !! field1 = Some e1 →
      field_coverage fa !! field2 = Some e2 →
      (SFleb (coverage_pct e1) (coverage_pct e2) = true
       ↔ (count e1 ≤ count e2)%nat).
Proof.
  intros Hserves Hne Hsample.
  destruct (get_detailed_sample db name n cs docs Hserves Hne Hsample)
    as (st & fa & Hst & _ & Hfa & Hdesc).
  exists st, fa. split; [done |]. split; [done |].
  intros field1 field2 e1 e2 Hlook1 Hlook2.
  pose proof (sample_bounds docs Hne) as Hlen.
  destruct (coverage_entry_inv _ _ _ _ (proj1 Hlen) Hdesc Hlook1)
    as (_ & _ & Hcount1 & Hpct1).
  destruct (coverage_entry_inv _ _ _ _ (proj1 Hlen) Hdesc Hlook2)
    as (_ & _ & Hcount2 & Hpct2).
  destruct (coverage_ordered_spec _ _ _ Hlen
              (presence_le (take 100 docs) field1)
              (presence_le (take 100 docs) field2)) as (_ & _ & Hle).
  rewrite Hcount1, Hcount2, Hpct1, Hpct2, Hle. apply Nat.leb_le.
Qed.

Lemma coverage_order_is_count_order_witness :
  let db := serving three_records in
  let name := "c" in
  let docs := three_records in
  serves db name 3 some_collstats docs ∧ docs ≠ [] ∧
  hashable_sample (take 100 docs) ∧
  ∃ st fa, get_detailed_collection_stats db name = Ok st ∧
    field_analysis st = Some fa ∧
    ∀ field1 field2 e1 e2,
      field_coverage fa !! field1 = Some e1 →
      field_coverage fa !! field2 = Some e2 →
      (SFleb (coverage_pct e1) (coverage_pct e2) = true
       ↔ (count e1 ≤ count e2)%nat).
Proof.
  intros db name docs.
  assert (Hserves : serves db name 3 some_collstats docs).
  { repeat split; reflexivity. }
  assert (Hne : docs ≠ []) by discriminate.
  assert (Hsample : hashable_sample (take 100 docs)) by exact I.
  split; [exact Hserves |]. split; [exact Hne |]. split; [exact Hsample |].
  exact (coverage_order_is_count_order db name 3 some_collstats docs
           Hserves Hne
           Hsample).
Defined.

(** *** The keys of the four mappings *)

(** The coverage mapping and the distinct counts have the sampled field
    names other than [_id] as keys, the type histogram all the sampled
    names, and every field with a frequency table has a coverage entry. *)
Theorem report_fields_are_sample_fields `{builtins : Builtins}
    (db : database) (name : string)
    (n : Z) (cs : collstats) (docs : list document) :
  serves db name n cs docs → docs ≠ [] →
  hashable_sample (take 100 docs) →
  ∃ st fa, get_detailed_collection_stats db name = Ok st ∧
    field_analysis st = Some fa ∧
    ∀ field,
      let sampled := ∃ doc, doc ∈ take 100 docs ∧ contains doc field in
      (is_Some (field_coverage fa !! field) ↔ field ≠ "_id" ∧ sampled) ∧
      (is_Some (distinct_counts fa !! field) ↔ field ≠ "_id" ∧ sampled) ∧
      (is_Some (field_types fa !! field) ↔ sampled) ∧
      (is_Some (value_distributions fa !! field) →
       is_Some (field_coverage fa !! field)).
Proof.
  intros Hserves Hne Hsample.
  destruct (get_detailed_sample db name n cs docs Hserves Hne Hsample)
    as (st & fa & Hst & _ & Hfa & Hdesc).
  exists st, fa. split; [done |]. split; [done |].
  intros field sampled.
  assert (Hsampled : field ∈ all_fields (take 100 docs) ↔ sampled).
  { rewrite elem_of_all_fields. unfold sampled.
    split; intros (doc & Hdoc & Hkey); exists doc; split; try done;
      by apply contains_keys. }
  assert (Hcov : is_Some (field_coverage fa !! field)
                 ↔ field ≠ "_id" ∧ sampled).
  { destruct (described_coverage _ _ Hdesc field) as [Hyes Hno].
    rewrite <- Hsampled. split.
    - intros Hsome.
      destruct (decide (field ∈ all_fields (take 100 docs) ∧ field ≠ "_id"))
        as [[? ?]|Hout]; [done |].
      rewrite (Hno Hout) in Hsome. by destruct Hsome.
    - intros [Hid Hin]. destruct Hyes as (q & _ & _ & _ & ->); by eauto. }
  split; [done |]. split; [|split].
  - pose proof (described_distinct _ _ Hdesc field) as Hdistinct.
    rewrite <- Hsampled.
    destruct (decide _) as [[? ?]|Hout] in Hdistinct.
    + destruct Hdistinct as (values & _ & ->). split; [done | by eauto].
    + rewrite Hdistinct.
      split; [by intros [? ?] | intros [? ?]; by destruct Hout].
  - rewrite (described_types _ _ Hdesc), <- Hsampled.
    destruct (decide _) as [?|Hout].
    + split; [done | by eauto].
    + split; [by intros [? ?] | done].
  - rewrite (described_distributions _ _ Hdesc).
    destruct (decide _) as [[Hin Ht]|Hout]; [|by intros [? ?]].
    intros _. apply Hcov. split; [|by apply Hsampled].
    unfold has_table in Ht. apply andb_prop_elim in Ht as [Ht _].
    by apply bool_decide_unpack in Ht.
Qed.

Lemma report_fields_are_sample_fields_witness :
  let db := serving three_records in
  let name := "c" in
  let docs := three_records in
  serves db name 3 some_collstats docs ∧ docs ≠ [] ∧
  hashable_sample (take 100 docs) ∧
  ∃ st fa, get_detailed_collection_stats db name = Ok st ∧
    field_analysis st = Some fa ∧
    ∀ field,
      let sampled := ∃ doc, doc ∈ take 100 docs ∧ contains doc field in
      (is_Some (field_coverage fa !! field) ↔ field ≠ "_id" ∧ sampled) ∧
      (is_Some (distinct_counts fa !! field) ↔ field ≠ "_id" ∧ sampled) ∧
      (is_Some (field_types fa !! field) ↔ sampled) ∧
      (is_Some (value_distributions fa !! field) →
       is_Some (field_coverage fa !! field)).
Proof.
  intros db name docs.
  assert (Hserves : serves db name 3 some_collstats docs).
  { repeat split; reflexivity. }
  assert (Hne : docs ≠ []) by discriminate.
  assert (Hsample : hashable_sample (take 100 docs)) by exact I.
  split; [exact Hserves |]. split; [exact Hne |]. split; [exact Hsample |].
  exact (report_fields_are_sample_fields db name 3 some_collstats docs
           Hserves Hne
           Hsample).
Defined.

(** *** Distinct counts and table counts against the presence count *)

(** The distinct count of a field never exceeds its presence count, and
    it is 0 exactly when all the sampled values of the field are
    composite. *)
Theorem distinct_count_bounds `{builtins : Builtins}
    (db : database) (name : string) (n : Z)
    (cs : collstats) (docs : list document) :
  serves db name n cs docs → docs ≠ [] →
  hashable_sample (take 100 docs) →
  ∃ st fa, get_detailed_collection_stats db name = Ok st ∧
    field_analysis st = Some fa ∧
    ∀ field d, distinct_counts fa !! field = Some d →
      ∃ e, field_coverage fa !! field = Some e ∧
        (d ≤ count e)%nat ∧
        (d = 0%nat
         ↔ Forall (λ v, is_dict_or_list v)
                  (field_values (take 100 docs) field)).
Proof.
  intros Hserves Hne Hsample.
  destruct (get_detailed_sample db name n cs docs Hserves Hne Hsample)
    as (st & fa & Hst & _ & Hfa & Hdesc).
  exists st, fa. split; [done |]. split; [done |].
  intros field d Hd.
  pose proof (described_distinct _ _ Hdesc field) as Hdistinct.
  destruct (decide _) as [Hin|] in Hdistinct; [|by rewrite Hdistinct in Hd].
  destruct Hdistinct as (values & Hvalues & Hcount).
  rewrite Hcount in Hd. injection Hd as <-.
  destruct (described_coverage _ _ Hdesc field) as [Hyes _].
  destruct (Hyes Hin) as (q & _ & _ & _ & Hentry).
  exists (entry (take 100 docs) field q). split; [done |].
  rewrite distinct_values_scalars in Hvalues.
  fold (scalars (field_values (take 100 docs) field)) in Hvalues.
  destruct (set_of_length _ _ Hvalues) as [Hle Hzero]. split.
  - cbn [count entry]. rewrite <- length_field_values.
    pose proof (length_filter (λ v, ¬ is_dict_or_list v)
                  (field_values (take 100 docs) field)) as Hf.
    unfold scalars in Hle. lia.
  - by rewrite Hzero, scalars_nil_iff.
Qed.

Lemma distinct_count_bounds_witness :
  let db := serving string_then_mapping in
  let name := "c" in
  let docs := string_then_mapping in
  serves db name 2 some_collstats docs ∧ docs ≠ [] ∧
  hashable_sample (take 100 docs) ∧
  ∃ st fa, get_detailed_collection_stats db name = Ok st ∧
    field_analysis st = Some fa ∧
    ∀ field d, distinct_counts fa !! field = Some d →
      ∃ e, field_coverage fa !! field = Some e ∧
        (d ≤ count e)%nat ∧
        (d = 0%nat
         ↔ Forall (λ v, is_dict_or_list v)
                  (field_values (take 100 docs) field)).
Proof.
  intros db name docs.
  assert (Hserves : serves db name 2 some_collstats docs).
  { repeat split; reflexivity. }
  assert (Hne : docs ≠ []) by discriminate.
  assert (Hsample : hashable_sample (take 100 docs)) by exact I.
  split; [exact Hserves |]. split; [exact Hne |]. split; [exact Hsample |].
  exact (distinct_count_bounds db name 2 some_collstats docs Hserves Hne
           Hsample).
Defined.

(** The counts of a frequency table add up to at most the presence count
    of the field, and to exactly that when the field has at most ten
    distinct string forms, that is when [[:10]] cuts nothing off. *)
Theorem table_counts_against_presence `{builtins : Builtins}
    (db : database) (name : string) (n : Z)
    (cs : collstats) (docs : list document) :
  serves db name n cs docs → docs ≠ [] →
  hashable_sample (take 100 docs) →
  ∃ st fa, get_detailed_collection_stats db name = Ok st ∧
    field_analysis st = Some fa ∧
    ∀ field table, value_distributions fa !! field = Some table →
      ∃ e, field_coverage fa !! field = Some e ∧
        (sum_list table.*2 ≤ count e)%nat ∧
        (sum_list table.*2 = count e
         ↔ (size (list_to_set (str <$> field_values (take 100 docs) field)
                  : gset string) ≤ 10)%nat).
Proof.
  intros Hserves Hne Hsample.
  destruct (get_detailed_sample db name n cs docs Hserves Hne Hsample)
    as (st & fa & Hst & _ & Hfa & Hdesc).
  exists st, fa. split; [done |]. split; [done |].
  intros field table Htable.
  rewrite (described_distributions _ _ Hdesc) in Htable.
  destruct (decide _) as [[Hin Ht]|] in Htable; [|done].
  injection Htable as <-.
  assert (Hid : field ≠ "_id").
  { unfold has_table in Ht. apply andb_prop_elim in Ht as [Ht _].
    by apply bool_decide_unpack in Ht. }
  destruct (described_coverage _ _ Hdesc field) as [Hyes _].
  destruct (Hyes (conj Hin Hid)) as (q & _ & _ & _ & Hentry).
  exists (entry (take 100 docs) field q). split; [done |].
  cbn [count entry]. rewrite <- length_field_values.
  apply sorted_values_sum.
Qed.

Lemma table_counts_against_presence_witness :
  let db := serving three_records in
  let name := "c" in
  let docs := three_records in
  serves db name 3 some_collstats docs ∧ docs ≠ [] ∧
  hashable_sample (take 100 docs) ∧
  ∃ st fa, get_detailed_collection_stats db name = Ok st ∧
    field_analysis st = Some fa ∧
    ∀ field table, value_distributions fa !! field = Some table →
      ∃ e, field_coverage fa !! field = Some e ∧
        (sum_list table.*2 ≤ count e)%nat ∧
        (sum_list table.*2 = count e
         ↔ (size (list_to_set (str <$> field_values (take 100 docs) field)
                  : gset string) ≤ 10)%nat).
Proof.
  intros db name docs.
  assert (Hserves : serves db name 3 some_collstats docs).
  { repeat split; reflexivity. }
  assert (Hne : docs ≠ []) by discriminate.
  assert (Hsample : hashable_sample (take 100 docs)) by exact I.
  split; [exact Hserves |]. split; [exact Hne |]. split; [exact Hsample |].
  exact (table_counts_against_presence db name 3 some_collstats docs
           Hserves Hne
           Hsample).
Defined.

(** *** The popup *)

Section PopupFacts.
Context `{builtins : Builtins}.

Lemma sorted_desc_head (x : string * nat) (l rest : list (string * nat)) :
  sorted_desc l = x :: rest →
  x ∈ l ∧
  (∀ y, y ∈ l → (y.2 ≤ x.2)%nat) ∧
  (∀ y, y ∈ l → y ≠ x → y.2 = x.2 → [x; y] `sublist_of` l).
Proof.
  intros Hsorted.
  pose proof (sorted_desc_Permutation l) as Hperm.
  pose proof (sorted_desc_sorted l) as Hs.
  rewrite Hsorted in Hperm, Hs.
  apply StronglySorted_cons in Hs as [Hhead _].
  assert (Hin : ∀ y, y ∈ l → y = x ∨ y ∈ rest).
  { intros y Hy. rewrite <- Hperm in Hy. by apply elem_of_cons in Hy. }
  split; [rewrite <- Hperm; left |]. split.
  - intros y Hy. destruct (Hin y Hy) as [->|Hrest]; [done |].
    rewrite Forall_forall in Hhead. by apply Hhead.
  - intros y Hy Hne Heq. destruct (Hin y Hy) as [->|Hrest]; [done |].
    apply sorted_desc_stable; [|done]. rewrite Hsorted.
    apply sublist_skip. by apply singleton_sublist_l.
Qed.

Lemma elem_of_all_fields_contains (field : string) (docs : list document) :
  (∃ doc, doc ∈ docs ∧ contains doc field) ↔ field ∈ all_fields docs.
Proof.
  rewrite elem_of_all_fields.
  split; intros (doc & Hdoc & Hkey); exists doc; split; try done;
    by apply contains_keys.
Qed.

End PopupFacts.

(** The "Data Types" table has one row for each sampled field other than
    [_id]; the primary type of a row is a type name of the field with the
    highest count, and among the names with that count the one met first
    in the sample. *)
Theorem primary_type_is_most_frequent `{builtins : Builtins}
    (db : database) (name : string) (n : Z)
    (cs : collstats) (docs : list document) :
  serves db name n cs docs → docs ≠ [] →
  hashable_sample (take 100 docs) →
  ∃ st fa, get_detailed_collection_stats db name = Ok st ∧
    field_analysis st = Some fa ∧
    (∀ field, (∃ row, row ∈ type_data (field_types fa) ∧ row_field row = field)
              ↔ field ≠ "_id" ∧ ∃ doc, doc ∈ take 100 docs ∧ contains doc field) ∧
    NoDup (row_field <$> type_data (field_types fa)) ∧
    ∀ row, row ∈ type_data (field_types fa) →
      let names := type_name <$> field_values (take 100 docs) (row_field row) in
      let c := occurrences (primary_type row) names in
      primary_type row ∈ names ∧
      (∀ t, (occurrences t names ≤ c)%nat) ∧
      (∀ t, t ≠ primary_type row → occurrences t names = c →
         ∃ l1 l2, names = l1 ++ primary_type row :: l2 ∧ t ∉ l1).
Proof.
  intros Hserves Hne Hsample.
  destruct (get_detailed_sample db name n cs docs Hserves Hne Hsample)
    as (st & fa & Hst & _ & Hfa & Hdesc).
  exists st, fa. split; [done |]. split; [done |].
  assert (Hrows : ∀ row, row ∈ type_data (field_types fa) ↔
            row_field row ≠ "_id" ∧
            row_field row ∈ all_fields (take 100 docs) ∧
            row = type_row_of (row_field row)
                    (type_counts (take 100 docs) (row_field row))).
  { intros row. unfold type_data. rewrite list_elem_of_fmap. split.
    - intros ([field tc] & -> & Hin). apply list_elem_of_filter in Hin as [Hid Hin].
      apply elem_of_map_to_list in Hin. simpl in *.
      rewrite (described_types _ _ Hdesc) in Hin.
      destruct (decide _) in Hin; [|done]. by injection Hin as <-.
    - intros (Hid & Hin & Hrow).
      exists (row_field row, type_counts (take 100 docs) (row_field row)).
      split; [done |]. apply list_elem_of_filter. split; [done |].
      apply elem_of_map_to_list. simpl.
      rewrite (described_types _ _ Hdesc). by rewrite decide_True. }
  split; [|split].
  - intros field. rewrite (elem_of_all_fields_contains field). split.
    + intros (row & Hrow & <-). apply Hrows in Hrow as (? & ? & _). done.
    + intros [Hid Hin].
      exists (type_row_of field (type_counts (take 100 docs) field)).
      split; [|done]. apply Hrows. done.
  - unfold type_data. rewrite <- list_fmap_compose.
    eapply (NoDup_fmap_2_strong _ (filter _ _)).
    + intros [f1 tc1] [f2 tc2] H1 H2 Heq. simpl in Heq. subst f2.
      apply list_elem_of_filter in H1 as [_ H1], H2 as [_ H2].
      f_equal. exact (map_to_list_unique _ _ _ _ H1 H2).
    + apply NoDup_filter, NoDup_map_to_list.
  - intros row Hrow names c. apply Hrows in Hrow as (Hid & Hin & Hrow).
    set (field := row_field row) in *.
    pose proof (tallies_foldl names) as [Hnd Hcount Hkey Horder].
    unfold names in Hnd, Hcount, Hkey, Horder.
    rewrite <- type_counts_tally in Hnd, Hcount, Hkey, Horder.
    fold names in Hcount, Hkey, Horder.
    set (h := type_counts (take 100 docs) field) in *.
    destruct (field_values_cons _ _ Hin) as (first & rest & Hvalues).
    assert (Hsome : type_name first ∈ names).
    { unfold names. rewrite Hvalues. left. }
    destruct (sorted_desc h) as [|[t0 c0] tail] eqn:Hsorted.
    { pose proof (sorted_desc_Permutation h) as Hperm. rewrite Hsorted in Hperm.
      apply Hkey in Hsome. rewrite <- Hperm in Hsome. inversion Hsome. }
    assert (Hprimary : primary_type row = t0).
    { rewrite Hrow. unfold type_row_of. fold h. by rewrite Hsorted. }
    unfold c. rewrite Hprimary.
    destruct (sorted_desc_head _ _ _ Hsorted) as (Hx & Hmax & Htie).
    destruct (Hcount _ _ Hx) as [Ht0 Hc0]. simpl in *.
    split; [done |]. split.
    + intros t. destruct (decide (t ∈ names)) as [Ht|Ht].
      * specialize (Hmax _ (Hkey t Ht)). simpl in Hmax. lia.
      * rewrite occurrences_0 by done. lia.
    + intros t Hne' Heq. apply Horder.
      assert (Ht : t ∈ names).
      { destruct (decide (t ∈ names)) as [|Hout]; [done |].
        rewrite (occurrences_0 t) in Heq by done.
        pose proof (occurrences_pos _ _ Ht0). lia. }
      apply (fmap_sublist fst [(t0, c0); (t, occurrences t names)] h).
      apply Htie; [by apply Hkey | congruence | simpl; lia].
Qed.

Lemma primary_type_is_most_frequent_witness :
  let db := serving string_then_mapping in
  let name := "c" in
  let docs := string_then_mapping in
  serves db name 2 some_collstats docs ∧ docs ≠ [] ∧
  hashable_sample (take 100 docs) ∧
  ∃ st fa, get_detailed_collection_stats db name = Ok st ∧
    field_analysis st = Some fa ∧
    (∀ field, (∃ row, row ∈ type_data (field_types fa) ∧ row_field row = field)
              ↔ field ≠ "_id" ∧ ∃ doc, doc ∈ take 100 docs ∧ contains doc field) ∧
    NoDup (row_field <$> type_data (field_types fa)) ∧
    ∀ row, row ∈ type_data (field_types fa) →
      let names := type_name <$> field_values (take 100 docs) (row_field row) in
      let c := occurrences (primary_type row) names in
      primary_type row ∈ names ∧
      (∀ t, (occurrences t names ≤ c)%nat) ∧
      (∀ t, t ≠ primary_type row → occurrences t names = c →
         ∃ l1 l2, names = l1 ++ primary_type row :: l2 ∧ t ∉ l1).
Proof.
  intros db name docs.
  assert (Hserves : serves db name 2 some_collstats docs).
  { repeat split; reflexivity. }
  assert (Hne : docs ≠ []) by discriminate.
  assert (Hsample : hashable_sample (take 100 docs)) by exact I.
  split; [exact Hserves |]. split; [exact Hne |]. split; [exact Hsample |].
  exact (primary_type_is_most_frequent db name 2 some_collstats docs
           Hserves Hne
           Hsample).
Defined.

(** The two cardinality lists: nothing is shown without fields, the
    bottom list is shown for more than five fields only, and for six to
    nine fields the two lists overlap, the last fields of the top list
    being the first of the bottom list; from ten fields on they share no
    entry. *)
Theorem cardinality_lists_overlap (distinct_counts : gmap string nat) :
  let fields := size distinct_counts in
  match cardinality_lists distinct_counts with
  | None => fields = 0%nat
  | Some (top, bottom) =>
      (0 < fields)%nat ∧
      length top = (5 `min` fields)%nat ∧
      match bottom with
      | None => (fields ≤ 5)%nat
      | Some bottom =>
          (5 < fields)%nat ∧ length bottom = 5%nat ∧
          (fields < 10 →
           drop (fields - 5) top = take (10 - fields) bottom ∧
           length (take (10 - fields) bottom) = 10 - fields)%nat ∧
          (10 ≤ fields → ∀ item, item ∈ top → item ∉ bottom)%nat
      end
  end.
Proof.
  intros fields. unfold cardinality_lists.
  assert (Hsize : length (map_to_list distinct_counts) = fields).
  { apply length_map_to_list. }
  pose proof (NoDup_map_to_list distinct_counts) as Hnd.
  destruct (map_to_list distinct_counts) as [|item items] eqn:Hitems;
    [done |].
  pose proof (sorted_desc_Permutation (item :: items)) as Hperm.
  set (S := sorted_desc (item :: items)) in *.
  assert (Hlen : length S = fields) by (by rewrite Hperm).
  rewrite <- Hperm in Hnd. clearbody S.
  split; [simpl in Hsize; lia |]. split; [by rewrite length_take, Hlen |].
  rewrite Hlen. destruct (decide (5 < fields)%nat) as [Hgt|Hle]; [|lia].
  unfold last_items. rewrite Hlen.
  split; [done |]. split; [rewrite length_drop; lia |]. split.
  - intros Hlt. split.
    + rewrite take_drop_commute. do 2 f_equal. lia.
    + rewrite length_take, length_drop. lia.
  - intros Hge x Htop Hbottom.
    rewrite <- (take_drop 5 S) in Hnd. apply NoDup_app in Hnd as (_ & Hnd & _).
    apply (Hnd x Htop).
    replace (fields - 5)%nat with (5 + (fields - 10))%nat in Hbottom by lia.
    rewrite <- drop_drop in Hbottom.
    eapply elem_of_sublist; [exact Hbottom | apply sublist_drop].
Qed.

(** *** The pages of the "View Data" tab *)

Section PageFacts.
Context `{builtins : Builtins}.

Lemma chunks_join {A : Type} (l : list A) (size k : nat) :
  mjoin ((λ i, take size (drop (i * size) l)) <$> seq 0 k)
  = take (k * size) l.
Proof.
  induction k as [|k IH]; [done |].
  rewrite seq_S, fmap_app, join_app, IH. simpl.
  rewrite app_nil_r, take_take_drop. f_equal. lia.
Qed.

Lemma total_pages_bounds (count size : Z) :
  0 < size → 0 ≤ count →
  ∃ total_pages, floordiv (count + size - 1) size = Ok total_pages ∧
    0 ≤ total_pages ∧
    size * (total_pages - 1) < count ≤ size * total_pages.
Proof.
  intros Hsize Hcount. unfold floordiv.
  destruct (size =? 0) eqn:Hz; [apply Z.eqb_eq in Hz; lia |].
  eexists. split; [done |].
  pose proof (Z.mul_div_le (count + size - 1) size Hsize).
  pose proof (Z.mul_succ_div_gt (count + size - 1) size Hsize).
  assert (0 ≤ (count + size - 1) `div` size) by (apply Z.div_pos; lia).
  lia.
Qed.

(** The documents of page [p] when the collection holds [docs]. *)
Lemma view_data_page (collection : collection) (s : session)
    (docs : list document) (p : Z) (click : option button) :
  find collection = Ok docs → (0 < items_per_page s)%nat → 1 ≤ p →
  cursor_limit (items_per_page s)
    (cursor_skip ((p - 1) * Z.of_nat (items_per_page s)) (find collection))
  = Ok (take (items_per_page s)
          (drop (Z.to_nat (p - 1) * items_per_page s) docs)).
Proof.
  intros Hfind Hsize Hp. unfold cursor_limit, cursor_skip. rewrite Hfind.
  destruct (_ <? 0) eqn:Hneg; [apply Z.ltb_lt in Hneg; nia |]. simpl.
  destruct (items_per_page s) as [|size] eqn:Hs; [lia |].
  do 3 f_equal. rewrite <- Hs. nia.
Qed.

(** What every reachable session satisfies. *)
Lemma reachable_bounds (s : session) :
  reachable s →
  1 ≤ pagination_page s ∧ (5 ≤ items_per_page s ≤ 100)%nat.
Proof.
  intros Hreach. unfold reachable in Hreach. revert s Hreach.
  apply (rtc_ind_r (λ s, 1 ≤ pagination_page s
                         ∧ (5 ≤ items_per_page s ≤ 100)%nat)).
  { simpl. lia. }
  intros s s' _ Hstep IH.
  destruct Hstep as [db name slider s Hslider|s|db s|collection click s].
  - unfold select_collection.
    destruct (decide (name = "")); [done |].
    destruct (bool_decide (collection_selected s ≠ Some name)).
    + destruct (get_detailed_collection_stats db name); simpl; [|done].
      destruct (bool_decide _); simpl; lia.
    + simpl. destruct (bool_decide _); simpl; lia.
  - done.
  - unfold show_statistics. destruct (show_stats_popup s); [done |].
    destruct (collection_selected s); [|done].
    by destruct (get_detailed_collection_stats db s0).
  - unfold view_data.
    destruct (cursor_limit _ _) as [[|doc docs]|e]; [done | | done].
    destruct (pressed PreviousPage click && (1 <? pagination_page s))
      eqn:Hprev.
    { apply andb_true_iff in Hprev as [_ Hprev]. apply Z.ltb_lt in Hprev.
      simpl. lia. }
    destruct (stats_binding s); [|done].
    destruct (floordiv _ _); [|done].
    destruct (pressed NextPage click); simpl; [lia | done].
Qed.

End PageFacts.

(** With the popup shown and a report whose document count is the number
    of documents, the pages 1 to [total_pages] are drawn without error,
    none is empty, each is labelled "Page p of total_pages", and put end
    to end they give the collection. *)
Theorem pages_cover_collection (collection : collection) (s : session)
    (st : stats) (docs : list document) :
  find collection = Ok docs →
  stats_binding s = Some st →
  doc_count st = Z.of_nat (length docs) →
  (0 < items_per_page s)%nat →
  ∃ total_pages,
    floordiv (doc_count st + Z.of_nat (items_per_page s) - 1)
             (Z.of_nat (items_per_page s)) = Ok total_pages ∧
    Z.of_nat (items_per_page s) * (total_pages - 1)
      < Z.of_nat (length docs)
      ≤ Z.of_nat (items_per_page s) * total_pages ∧
    (∀ p, 1 ≤ p ≤ total_pages →
       ∃ page, page ≠ [] ∧ (length page ≤ items_per_page s)%nat ∧
         view_data collection None (set_page s p)
         = (set_page s p,
            Drawn page (Some ("Page " +:+ pretty p +:+ " of "
                              +:+ pretty total_pages)))) ∧
    mjoin ((λ p, docs_of (view_data collection None (set_page s p)).2)
           <$> seqZ 1 total_pages) = docs.
Proof.
  intros Hfind Hstats Hcount Hsize.
  destruct (total_pages_bounds (doc_count st) (Z.of_nat (items_per_page s)))
    as (total & Htotal & Hpos & Hbounds); [lia | lia |].
  exists total. split; [done |]. rewrite Hcount in Hbounds. split; [done |].
  assert (Hview : ∀ p, 1 ≤ p ≤ total →
            let page := take (items_per_page s)
                          (drop (Z.to_nat (p - 1) * items_per_page s) docs) in
            page ≠ [] ∧
            view_data collection None (set_page s p)
            = (set_page s p,
               Drawn page (Some ("Page " +:+ pretty p +:+ " of "
                                 +:+ pretty total)))).
  { intros p Hp page.
    assert (Hne : page ≠ []).
    { unfold page. intros Hnil. apply (f_equal length) in Hnil.
      rewrite length_take, length_drop in Hnil. simpl in Hnil. nia. }
    split; [done |]. unfold view_data. cbn [pagination_page items_per_page set_page].
    rewrite (view_data_page collection s docs p None Hfind Hsize) by lia.
    fold page. destruct page as [|doc page']; [done |]. simpl.
    replace (stats_binding (set_page s p)) with (stats_binding s) by done.
    by rewrite Hstats, Htotal. }
  split.
  - intros p Hp. destruct (Hview p Hp) as [Hne Heq]. eexists.
    split; [exact Hne |]. split; [|exact Heq]. rewrite length_take. lia.
  - transitivity (mjoin ((λ i, take (items_per_page s)
                                  (drop (i * items_per_page s) docs))
                         <$> seq 0 (Z.to_nat total))).
    + f_equal. unfold seqZ. rewrite <- list_fmap_compose.
      apply list_fmap_ext. intros i k Hk. simpl.
      apply lookup_seq in Hk as [-> Hk]. rewrite Nat.add_0_l.
      destruct (Hview (Z.of_nat i + 1)) as [_ ->]; [lia |]. simpl.
      do 3 f_equal. lia.
    + rewrite chunks_join. apply take_ge. nia.
Qed.

Lemma pages_cover_collection_witness :
  let collection := db_collection (serving three_records) "c" in
  let st := counted 3 in
  let s := viewing true st 2 1 in
  let docs := three_records in
  find collection = Ok docs ∧
  stats_binding s = Some st ∧
  doc_count st = Z.of_nat (length docs) ∧
  (0 < items_per_page s)%nat ∧
  ∃ total_pages,
    floordiv (doc_count st + Z.of_nat (items_per_page s) - 1)
             (Z.of_nat (items_per_page s)) = Ok total_pages ∧
    Z.of_nat (items_per_page s) * (total_pages - 1)
      < Z.of_nat (length docs)
      ≤ Z.of_nat (items_per_page s) * total_pages ∧
    (∀ p, 1 ≤ p ≤ total_pages →
       ∃ page, page ≠ [] ∧ (length page ≤ items_per_page s)%nat ∧
         view_data collection None (set_page s p)
         = (set_page s p,
            Drawn page (Some ("Page " +:+ pretty p +:+ " of "
                              +:+ pretty total_pages)))) ∧
    mjoin ((λ p, docs_of (view_data collection None (set_page s p)).2)
           <$> seqZ 1 total_pages) = docs.
Proof.
  intros collection st s docs.
  assert (Hsize : (0 < items_per_page s)%nat) by (simpl; lia).
  do 3 (split; [reflexivity |]). split; [exact Hsize |].
  exact (pages_cover_collection collection s st docs eq_refl eq_refl eq_refl
           Hsize).
Defined.

(** With the popup shown, so that the name [stats] is bound, "Next Page"
    has no upper bound: on a page with documents it always moves on, and
    the page after the last one shows "No documents found in this
    collection." with no button to come back. *)
Theorem next_page_past_the_end (collection : collection) (s : session)
    (st : stats) (docs : list document) :
  find collection = Ok docs →
  stats_binding s = Some st →
  (0 < items_per_page s)%nat →
  1 ≤ pagination_page s →
  (pagination_page s - 1) * Z.of_nat (items_per_page s)
    < Z.of_nat (length docs) →
  view_data collection (Some NextPage) s
  = (set_page s (pagination_page s + 1), Rerun) ∧
  (Z.of_nat (length docs)
     ≤ pagination_page s * Z.of_nat (items_per_page s) →
   ∀ click,
     view_data collection click (set_page s (pagination_page s + 1))
     = (set_page s (pagination_page s + 1), Drawn [] None)).
Proof.
  intros Hfind Hstats Hsize Hpage Hdocs. split.
  - unfold view_data.
    rewrite (view_data_page collection s docs _ None Hfind Hsize Hpage).
    destruct (take _ _) as [|doc page] eqn:Htake.
    { apply (f_equal length) in Htake.
      rewrite length_take, length_drop in Htake. simpl in Htake. nia. }
    simpl. rewrite Hstats. unfold floordiv.
    destruct (Z.of_nat (items_per_page s) =? 0) eqn:Hz;
      [apply Z.eqb_eq in Hz; lia | done].
  - intros Hlast click. unfold view_data.
    cbn [pagination_page items_per_page set_page].
    rewrite (view_data_page collection s docs _ None Hfind Hsize) by lia.
    rewrite drop_ge; [by rewrite take_nil | nia].
Qed.

Lemma next_page_past_the_end_witness :
  let collection := db_collection (serving three_records) "c" in
  let st := counted 3 in
  let s := viewing true st 2 2 in
  let docs := three_records in
  find collection = Ok docs ∧
  stats_binding s = Some st ∧
  (0 < items_per_page s)%nat ∧
  1 ≤ pagination_page s ∧
  (pagination_page s - 1) * Z.of_nat (items_per_page s)
    < Z.of_nat (length docs) ∧
  view_data collection (Some NextPage) s
  = (set_page s (pagination_page s + 1), Rerun) ∧
  (Z.of_nat (length docs)
     ≤ pagination_page s * Z.of_nat (items_per_page s) →
   ∀ click,
     view_data collection click (set_page s (pagination_page s + 1))
     = (set_page s (pagination_page s + 1), Drawn [] None)).
Proof.
  intros collection st s docs.
  assert (Hsize : (0 < items_per_page s)%nat) by (simpl; lia).
  assert (Hpage : 1 ≤ pagination_page s) by (simpl; lia).
  assert (Hdocs : (pagination_page s - 1) * Z.of_nat (items_per_page s)
                  < Z.of_nat (length docs)) by (simpl; lia).
  do 2 (split; [reflexivity |]). split; [exact Hsize |].
  split; [exact Hpage |]. split; [exact Hdocs |].
  exact (next_page_past_the_end collection s st docs eq_refl eq_refl Hsize
           Hpage Hdocs).
Defined.

(** Once the popup is closed the name [stats] of line 490 is unbound: a
    page that holds documents ends with the error "name 'stats' is not
    defined", unless "Previous Page" is pressed on a later page. *)
Theorem closed_popup_breaks_view (collection : collection) (s : session)
    (docs : list document) (click : option button) :
  find collection = Ok docs →
  show_stats_popup s = false →
  (0 < items_per_page s)%nat →
  1 ≤ pagination_page s →
  (pagination_page s - 1) * Z.of_nat (items_per_page s)
    < Z.of_nat (length docs) →
  view_data collection click s
  = if pressed PreviousPage click && (1 <? pagination_page s)
    then (set_page s (pagination_page s - 1), Rerun)
    else (s, Failed "Error: name 'stats' is not defined").
Proof.
  intros Hfind Hclosed Hsize Hpage Hdocs. unfold view_data.
  rewrite (view_data_page collection s docs _ None Hfind Hsize Hpage).
  destruct (take _ _) as [|doc page] eqn:Htake.
  { apply (f_equal length) in Htake.
    rewrite length_take, length_drop in Htake. simpl in Htake. nia. }
  destruct (pressed PreviousPage click && _); [done |].
  unfold stats_binding. by rewrite Hclosed.
Qed.

Lemma closed_popup_breaks_view_witness :
  let collection := db_collection (serving three_records) "c" in
  let s := viewing false (counted 3) 2 1 in
  let docs := three_records in
  let click := None in
  find collection = Ok docs ∧
  show_stats_popup s = false ∧
  (0 < items_per_page s)%nat ∧
  1 ≤ pagination_page s ∧
  (pagination_page s - 1) * Z.of_nat (items_per_page s)
    < Z.of_nat (length docs) ∧
  view_data collection click s
  = if pressed PreviousPage click && (1 <? pagination_page s)
    then (set_page s (pagination_page s - 1), Rerun)
    else (s, Failed "Error: name 'stats' is not defined").
Proof.
  intros collection s docs click.
  assert (Hsize : (0 < items_per_page s)%nat) by (simpl; lia).
  assert (Hpage : 1 ≤ pagination_page s) by (simpl; lia).
  assert (Hdocs : (pagination_page s - 1) * Z.of_nat (items_per_page s)
                  < Z.of_nat (length docs)) by (simpl; lia).
  do 2 (split; [reflexivity |]). split; [exact Hsize |].
  split; [exact Hpage |]. split; [exact Hdocs |].
  exact (closed_popup_breaks_view collection s docs click eq_refl eq_refl
           Hsize Hpage Hdocs).
Defined.

(** In a session that user actions lead to, the page number is at least 1
    and the page size positive, so the tab fails in two ways only: the
    collaborator's [find] raises, or the name [stats] is unbound. *)
Theorem view_errors_of_reachable `{builtins : Builtins}
    (collection : collection) (s : session)
    (click : option button) (message : string) :
  reachable s →
  (view_data collection click s).2 = Failed message →
  (∃ e, find collection = Raise e ∧ message = "Error: " +:+ e) ∨
  (stats_binding s = None ∧
   message = "Error: name 'stats' is not defined").
Proof.
  intros Hreach. destruct (reachable_bounds s Hreach) as [Hpage Hsize].
  unfold view_data, cursor_limit, cursor_skip.
  destruct (_ <? 0) eqn:Hneg; [apply Z.ltb_lt in Hneg; nia |].
  destruct (find collection) as [docs|e]; simpl.
  - destruct (match items_per_page s with O => _ | S _ => _ end)
      as [|doc page]; [done |].
    destruct (pressed PreviousPage click && _); [done |].
    destruct (stats_binding s); [|intros [= <-]; by right].
    unfold floordiv.
    destruct (Z.of_nat (items_per_page s) =? 0) eqn:Hz;
      [apply Z.eqb_eq in Hz; lia |].
    by destruct (pressed NextPage click).
  - intros [= <-]. left. by exists e.
Qed.

Lemma view_errors_of_reachable_witness :
  let db := serving three_records in
  let collection := db_collection db "c" in
  let s := close_popup (select_collection db "c" 10 initial_session).1 in
  let click := None in
  let message := "Error: name 'stats' is not defined" in
  reachable s ∧
  (view_data collection click s).2 = Failed message ∧
  ((∃ e, find collection = Raise e ∧ message = "Error: " +:+ e) ∨
   (stats_binding s = None ∧
    message = "Error: name 'stats' is not defined")).
Proof.
  intros db collection s click message.
  assert (Hreach : reachable s).
  { unfold reachable.
    eapply rtc_l; [exact (step_select db "c" 10 initial_session
                            ltac:(lia)) |].
    apply rtc_once, step_close. }
  assert (Hfailed : (view_data collection click s).2 = Failed message).
  { vm_compute. reflexivity. }
  split; [exact Hreach |]. split; [exact Hfailed |].
  exact (view_errors_of_reachable collection s click message Hreach
           Hfailed).
Defined.

(** When the statistics of a newly selected collection cannot be
    computed, the error is shown, the new name is selected and the popup
    flagged, but the report kept is the previous collection's; the next
    runs, the selection being unchanged, never compute it again and show
    the old report under the new name. *)
Theorem failed_statistics_leave_stale_popup `{builtins : Builtins}
    (db : database) (name : string)
    (slider : nat) (s : session) (e : exn) :
  name ≠ "" →
  collection_selected s ≠ Some name →
  get_detailed_collection_stats db name = Raise e →
  let s1 := (select_collection db name slider s).1 in
  (select_collection db name slider s).2 = Some ("Error: " +:+ e) ∧
  collection_selected s1 = Some name ∧
  show_stats_popup s1 = true ∧
  collection_stats s1 = collection_stats s ∧
  ∀ db2 slider2,
    let s2 := (select_collection db2 name slider2 s1).1 in
    (select_collection db2 name slider2 s1).2 = None ∧
    collection_selected s2 = Some name ∧
    stats_binding s2 = collection_stats s.
Proof.
  intros Hname Hchanged Hraise s1. unfold s1, select_collection.
  rewrite decide_False by done.
  rewrite bool_decide_true by done. rewrite Hraise. simpl.
  do 4 (split; [done |]). intros db2 slider2.
  rewrite decide_False by done.
  rewrite bool_decide_false by (by intros Hne; apply Hne). done.
Qed.

Lemma failed_statistics_leave_stale_popup_witness :
  let db := failing (Ok 7) (Raise "connection refused") (Ok []) in
  let name := "d" in
  let slider := 10%nat in
  let s := viewing true (counted 5) 10 1 in
  let e := "connection refused" in
  name ≠ "" ∧
  collection_selected s ≠ Some name ∧
  get_detailed_collection_stats db name = Raise e ∧
  collection_stats s = Some (counted 5) ∧
  let s1 := (select_collection db name slider s).1 in
  (select_collection db name slider s).2 = Some ("Error: " +:+ e) ∧
  collection_selected s1 = Some name ∧
  show_stats_popup s1 = true ∧
  collection_stats s1 = collection_stats s ∧
  ∀ db2 slider2,
    let s2 := (select_collection db2 name slider2 s1).1 in
    (select_collection db2 name slider2 s1).2 = None ∧
    collection_selected s2 = Some name ∧
    stats_binding s2 = collection_stats s.
Proof.
  intros db name slider s e.
  assert (Hname : name ≠ "") by discriminate.
  assert (Hchanged : collection_selected s ≠ Some name) by discriminate.
  split; [exact Hname |]. split; [exact Hchanged |].
  split; [reflexivity |]. split; [reflexivity |].
  exact (failed_statistics_leave_stale_popup db name slider s e Hname
           Hchanged eq_refl).
Defined.

(** *** The older explorer *)

Section LegacyFacts.
Context `{builtins : Builtins}.

Lemma get_detailed_sample_size (db : database) (name : string) (n : Z)
    (cs : collstats) (docs : list document) :
  serves db name n cs docs → docs ≠ [] → hashable_sample (take 100 docs) →
  ∃ st fa, get_detailed_collection_stats db name = Ok st ∧
           doc_count st = n ∧
           size_mb st
           = round (truediv (get_metric (stat_size cs)) (1024 * 1024)) 2 ∧
           field_analysis st = Some fa ∧
           field_count fa = size (all_fields (take 100 docs)).
Proof.
  intros (Hn & Hcs & Hdocs) Hne Hsample.
  destruct (analyse_fields_describes (take 100 docs) (sample_bounds docs Hne)
              Hsample) as (fa & Hfa & Hdesc).
  unfold get_detailed_collection_stats, limit.
  rewrite Hn, Hcs, Hdocs. simpl.
  destruct (take 100 docs) as [|doc sample] eqn:Hsample'.
  { destruct docs; [done | discriminate]. }
  rewrite Hfa. simpl. eexists. exists fa. split; [reflexivity |].
  do 3 (split; [done |]). apply Hdesc.
Qed.

Lemma size_keys (doc : document) :
  NoDup (keys doc) →
  size (list_to_set (keys doc) : gset string) = length (keys doc).
Proof. apply size_list_to_set. Qed.

End LegacyFacts.

(** The older explorer counts the fields of the first document only and
    leaves [_id] out; it hashes no value and shows its figures for every
    sample.  When the updated script returns a report, the two show the
    same document count and collection size, and the older figure is at
    most the report's field count, and smaller when the first document
    holds [_id]. *)
Theorem legacy_field_count `{builtins : Builtins}
    (db : database) (name : string) (n : Z)
    (cs : collstats) (first : document) (rest : list document) :
  serves db name n cs (first :: rest) → first ≠ [] → NoDup (keys first) →
  ∃ summary k,
    collection_statistics db name = Ok summary ∧
    total_documents summary = n ∧
    fields summary = Some k ∧
    k = size (list_to_set (keys first) ∖ {["_id"]} : gset string) ∧
    (hashable_sample (take 100 (first :: rest)) →
     ∃ st fa,
       get_detailed_collection_stats db name = Ok st ∧
       field_analysis st = Some fa ∧
       total_documents summary = doc_count st ∧
       collection_size summary = size_mb st ∧
       (k ≤ field_count fa)%nat ∧
       (contains first "_id" → (k < field_count fa)%nat)).
Proof.
  intros Hserves Hfirst Hnodup.
  assert (Hsum : collection_statistics db name
            = Ok {| total_documents := n;
                    collection_size :=
                      round (truediv (get_metric (stat_size cs))
                                     (1024 * 1024)) 2;
                    fields :=
                      Some (if contains first "_id"
                            then (length (keys first) - 1)%nat
                            else length (keys first)) |}).
  { destruct Hserves as (Hn & Hcs & Hdocs).
    unfold collection_statistics, find_one. rewrite Hn, Hcs, Hdocs.
    by destruct first. }
  assert (Hk : (if contains first "_id"
                then (length (keys first) - 1)%nat
                else length (keys first))
               = size (list_to_set (keys first) ∖ {["_id"]} : gset string)).
  { destruct (contains first "_id") eqn:Hid.
    - assert (Hin : "_id" ∈ (list_to_set (keys first) : gset string)).
      { apply elem_of_list_to_set, contains_keys. by rewrite Hid. }
      rewrite size_difference by set_solver.
      by rewrite size_keys, size_singleton.
    - assert (Hin : "_id" ∉ (list_to_set (keys first) : gset string)).
      { rewrite elem_of_list_to_set. intros Hin%contains_keys.
        by rewrite Hid in Hin. }
      rewrite difference_disjoint_L by by apply disjoint_singleton_r.
      by rewrite size_keys. }
  eexists _, _. split; [exact Hsum |].
  cbn [total_documents collection_size fields].
  split; [done |]. split; [reflexivity |]. split; [exact Hk |].
  intros Hsample.
  destruct (get_detailed_sample_size db name n cs (first :: rest) Hserves)
    as (st & fa & Hst & Hcount & Hsize & Hfa & Hfields); [done | done |].
  exists st, fa. do 2 (split; [done |]). split; [done |].
  split; [by rewrite Hsize |].
  assert (Hsub : (list_to_set (keys first) : gset string)
                 ⊆ all_fields (take 100 (first :: rest))).
  { intros field Hin. apply elem_of_all_fields. exists first.
    split; [simpl; left | by apply elem_of_list_to_set in Hin]. }
  apply subseteq_size in Hsub. rewrite size_keys in Hsub by done.
  rewrite Hfields.
  assert (0 < length (keys first))%nat
    by (destruct first; [done | simpl; lia]).
  destruct (contains first "_id"); [|done]. split; [lia |]. intros _. lia.
Qed.

Lemma legacy_field_count_witness :
  let db := serving three_records in
  let name := "c" in
  let n := 3 in
  let first := [("_id", oid "001"); ("a", VInt 1); ("b", VStr "x")] in
  let rest := tail three_records in
  serves db name n some_collstats (first :: rest) ∧
  first ≠ [] ∧
  NoDup (keys first) ∧
  hashable_sample (take 100 (first :: rest)) ∧
  ∃ summary k,
    collection_statistics db name = Ok summary ∧
    total_documents summary = n ∧
    fields summary = Some k ∧
    k = size (list_to_set (keys first) ∖ {["_id"]} : gset string) ∧
    (hashable_sample (take 100 (first :: rest)) →
     ∃ st fa,
       get_detailed_collection_stats db name = Ok st ∧
       field_analysis st = Some fa ∧
       total_documents summary = doc_count st ∧
       collection_size summary = size_mb st ∧
       (k ≤ field_count fa)%nat ∧
       (contains first "_id" → (k < field_count fa)%nat)).
Proof.
  intros db name n first rest.
  assert (Hserves : serves db name n some_collstats (first :: rest)).
  { repeat split; reflexivity. }
  assert (Hfirst : first ≠ []) by discriminate.
  assert (Hkeys : NoDup (keys first)).
  { exact (bool_decide_unpack (NoDup (keys first)) I). }
  split; [exact Hserves |]. split; [exact Hfirst |]. split; [exact Hkeys |].
  split; [exact I |].
  exact (legacy_field_count db name n some_collstats first rest Hserves
           Hfirst Hkeys).
Defined.

(** With the popup shown and a report whose document count is the
    collection's, the "View Data" tab behaves as in the older explorer;
    the older one, which counts the documents in every run, shows no error
    on a collection that answers, whatever the popup. *)
Theorem older_view_tab_needs_no_popup `{builtins : Builtins}
    (db : database) (name : string)
    (n : Z) (cs : collstats) (docs : list document) (s : session)
    (click : option button) :
  serves db name n cs docs →
  (0 < items_per_page s)%nat → 1 ≤ pagination_page s →
  (∀ st, stats_binding s = Some st → doc_count st = n →
     view_data (db_collection db name) click s = main_area db name click s) ∧
  (∀ message, (main_area db name click s).2 ≠ Failed message).
Proof.
  intros (Hn & Hcs & Hdocs) Hsize Hpage.
  assert (Hmain : main_area db name click s
                  = view_tab n (db_collection db name) click s).
  { unfold main_area, collection_statistics, find_one.
    by rewrite Hn, Hcs, Hdocs. }
  rewrite Hmain. unfold view_data, view_tab.
  rewrite (view_data_page _ s docs _ None Hdocs Hsize Hpage).
  assert (Hdiv : ∀ count, ∃ total,
            floordiv (count + Z.of_nat (items_per_page s) - 1)
                     (Z.of_nat (items_per_page s)) = Ok total).
  { intros count. unfold floordiv.
    destruct (_ =? 0) eqn:Hz; [apply Z.eqb_eq in Hz; lia | by eexists]. }
  split.
  - intros st Hst <-. destruct (take _ _) as [|doc page]; [done |].
    by rewrite Hst.
  - intros message. destruct (take _ _) as [|doc page]; [done |].
    destruct (pressed PreviousPage click && _); [done |].
    destruct (Hdiv n) as [total ->].
    by destruct (pressed NextPage click).
Qed.

Lemma older_view_tab_needs_no_popup_witness :
  let db := serving three_records in
  let name := "c" in
  let n := 3 in
  let s := viewing true (counted 3) 2 1 in
  let click := None in
  serves db name n some_collstats three_records ∧
  (0 < items_per_page s)%nat ∧
  1 ≤ pagination_page s ∧
  stats_binding s = Some (counted 3) ∧
  doc_count (counted 3) = n ∧
  view_data (db_collection db name) click s = main_area db name click s ∧
  (∀ st, stats_binding s = Some st → doc_count st = n →
     view_data (db_collection db name) click s = main_area db name click s) ∧
  (∀ message, (main_area db name click s).2 ≠ Failed message).
Proof.
  intros db name n s click.
  assert (Hserves : serves db name n some_collstats three_records).
  { repeat split; reflexivity. }
  assert (Hsize : (0 < items_per_page s)%nat) by (simpl; lia).
  assert (Hpage : 1 ≤ pagination_page s) by (simpl; lia).
  split; [exact Hserves |]. split; [exact Hsize |]. split; [exact Hpage |].
  split; [reflexivity |]. split; [reflexivity |].
  split.
  - exact (proj1 (older_view_tab_needs_no_popup db name n some_collstats
                    three_records s click Hserves Hsize Hpage)
             (counted 3) eq_refl eq_refl).
  - exact (older_view_tab_needs_no_popup db name n some_collstats
             three_records s click Hserves Hsize Hpage).
Defined.

(** *** The options of the "Field Analysis" tab *)

Section FieldTabFacts.
Context `{builtins : Builtins}.

Lemma string_compare_trans (a b c : string) :
  String.compare a b = Lt → String.compare b c = Lt →
  String.compare a c = Lt.
Proof.
  revert b c. induction a as [|x a IH]; intros [|y b] [|z c]; simpl;
    try done.
  unfold Ascii.compare.
  destruct (N.compare_spec (Ascii.N_of_ascii x) (Ascii.N_of_ascii y)),
           (N.compare_spec (Ascii.N_of_ascii y) (Ascii.N_of_ascii z)),
           (N.compare_spec (Ascii.N_of_ascii x) (Ascii.N_of_ascii z));
    try done; try lia.
  apply IH.
Qed.

Lemma name_lt_trans (a b c : string) : name_lt a b → name_lt b c → name_lt a c.
Proof.
  unfold name_lt, String.ltb. intros Hab Hbc.
  destruct (String.compare a b) eqn:H1; try done.
  destruct (String.compare b c) eqn:H2; try done.
  by rewrite (string_compare_trans a b c).
Qed.

Lemma leb_false_lt (x y : string) : String.leb x y = false → name_lt y x.
Proof.
  unfold name_lt, String.leb, String.ltb.
  rewrite (String.compare_antisym y x).
  by destruct (String.compare x y).
Qed.

Lemma leb_true_lt (x y : string) :
  String.leb x y = true → x ≠ y → name_lt x y.
Proof.
  unfold name_lt, String.leb, String.ltb. intros Hle Hne.
  destruct (String.compare x y) eqn:Hc; try done.
  by apply String.compare_eq_iff in Hc.
Qed.

Lemma elem_of_insert_name (x : string) (l : list string) (field : string) :
  field ∈ insert_name x l ↔ field = x ∨ field ∈ l.
Proof.
  induction l as [|y l IH]; simpl.
  - rewrite elem_of_cons, elem_of_nil. tauto.
  - destruct (String.leb x y).
    + by rewrite elem_of_cons.
    + rewrite !elem_of_cons, IH. tauto.
Qed.

Lemma insert_name_sorted (x : string) (l : list string) :
  x ∉ l → StronglySorted name_lt l → StronglySorted name_lt (insert_name x l).
Proof.
  intros Hx Hsorted. induction Hsorted as [|y l Hl IH Hy]; simpl.
  - by repeat constructor.
  - apply not_elem_of_cons in Hx as [Hxy Hx].
    destruct (String.leb x y) eqn:Hle.
    + assert (name_lt x y) by by apply leb_true_lt.
      constructor; [by constructor |].
      constructor; [done |].
      eapply Forall_impl; [exact Hy |]. intros z Hz.
      by apply (name_lt_trans x y z).
    + constructor; [by apply IH |].
      apply Forall_forall. intros z [->|Hz]%elem_of_insert_name.
      * by apply leb_false_lt.
      * by apply (proj1 (Forall_forall _ _) Hy).
Qed.

Lemma sorted_names_spec (names : list string) :
  NoDup names →
  StronglySorted name_lt (sorted_names names) ∧
  ∀ field, field ∈ sorted_names names ↔ field ∈ names.
Proof.
  induction 1 as [|x l Hx Hl [IH1 IH2]]; simpl.
  - split; [constructor | done].
  - split.
    + apply insert_name_sorted; [by rewrite IH2 | done].
    + intros field. rewrite elem_of_insert_name, IH2, elem_of_cons. done.
Qed.

Lemma take_10_of_sample (docs : list document) :
  take 100 docs = take 10 docs ++ drop 10 (take 100 docs).
Proof.
  rewrite <- (take_drop 10 (take 100 docs)) at 1.
  by rewrite take_take.
Qed.

End FieldTabFacts.

(** The select box of the "Field Analysis" tab lists, in strictly
    ascending order, the fields of the first ten documents.  When the
    report exists, each option other than [_id] has a coverage entry in
    it, and a reported field that is no option occurs only after the tenth
    document: in the sample below the field [b] of the eleventh record is
    reported and cannot be selected. *)
Theorem field_options_against_report `{builtins : Builtins}
    (db : database) (name : string)
    (n : Z) (cs : collstats) (docs : list document) :
  serves db name n cs docs → docs ≠ [] →
  ∃ options,
    field_options (db_collection db name) = Ok (Some options) ∧
    StronglySorted name_lt options ∧
    (∀ field, field ∈ options
              ↔ ∃ doc, doc ∈ take 10 docs ∧ contains doc field) ∧
    (hashable_sample (take 100 docs) →
     ∃ st fa,
       get_detailed_collection_stats db name = Ok st ∧
       field_analysis st = Some fa ∧
       (∀ field, field ∈ options → field ≠ "_id" →
          is_Some (field_coverage fa !! field)) ∧
       (∀ field, is_Some (field_coverage fa !! field) → field ∉ options →
          ∃ doc, doc ∈ drop 10 (take 100 docs) ∧ contains doc field)).
Proof.
  intros Hserves Hne.
  destruct (sorted_names_spec (elements (all_fields (take 10 docs))))
    as [Hsorted Helem]; [apply NoDup_elements |].
  assert (Hoptions : ∀ field,
            field ∈ sorted_names (elements (all_fields (take 10 docs)))
            ↔ ∃ doc, doc ∈ take 10 docs ∧ contains doc field).
  { intros field. rewrite Helem, elem_of_elements, elem_of_all_fields.
    by setoid_rewrite contains_keys. }
  eexists. split.
  { destruct Hserves as (_ & _ & Hdocs).
    unfold field_options, limit. rewrite Hdocs. simpl.
    destruct docs as [|doc docs]; [done | reflexivity]. }
  do 2 (split; [done |]). intros Hsample.
  destruct (get_detailed_sample db name n cs docs Hserves Hne Hsample)
    as (st & fa & Hst & _ & Hfa & Hdesc).
  exists st, fa. do 2 (split; [done |]). split.
  - intros field [doc [Hdoc Hfield]]%Hoptions Hid.
    destruct (described_coverage _ _ Hdesc field) as [Hyes _].
    destruct Hyes as (q & _ & _ & _ & ->); [|done].
    split; [|done]. apply elem_of_all_fields. exists doc.
    split; [|by apply contains_keys].
    rewrite take_10_of_sample. apply elem_of_app. by left.
  - intros field Hsome Hno.
    destruct (described_coverage _ _ Hdesc field) as [_ Hnone].
    destruct (decide (field ∈ all_fields (take 100 docs) ∧ field ≠ "_id"))
      as [[Hin _]|Hout].
    + apply elem_of_all_fields in Hin as (doc & Hdoc & Hfield).
      rewrite take_10_of_sample in Hdoc.
      apply elem_of_app in Hdoc as [Hdoc|Hdoc].
      * exfalso. apply Hno, Hoptions. exists doc.
        split; [done | by apply contains_keys].
      * exists doc. split; [done | by apply contains_keys].
    + rewrite (Hnone Hout) in Hsome. by destruct Hsome.
Qed.

Lemma field_options_against_report_witness :
  let db := serving eleven_records in
  let name := "c" in
  let n := 11 in
  let docs := eleven_records in
  serves db name n some_collstats docs ∧ docs ≠ [] ∧
  hashable_sample (take 100 docs) ∧
  field_options (db_collection db name) = Ok (Some ["_id"; "a"]) ∧
  (∃ doc, doc ∈ drop 10 (take 100 docs) ∧ contains doc "b") ∧
  ∃ options,
    field_options (db_collection db name) = Ok (Some options) ∧
    StronglySorted name_lt options ∧
    (∀ field, field ∈ options
              ↔ ∃ doc, doc ∈ take 10 docs ∧ contains doc field) ∧
    (hashable_sample (take 100 docs) →
     ∃ st fa,
       get_detailed_collection_stats db name = Ok st ∧
       field_analysis st = Some fa ∧
       (∀ field, field ∈ options → field ≠ "_id" →
          is_Some (field_coverage fa !! field)) ∧
       (∀ field, is_Some (field_coverage fa !! field) → field ∉ options →
          ∃ doc, doc ∈ drop 10 (take 100 docs) ∧ contains doc field)).
Proof.
  intros db name n docs.
  assert (Hserves : serves db name n some_collstats docs).
  { repeat split; reflexivity. }
  assert (Hne : docs ≠ []) by discriminate.
  split; [exact Hserves |]. split; [exact Hne |]. split; [exact I |].
  split; [vm_compute; reflexivity |].
  split; [exists [("_id", oid "011"); ("b", VStr "x")]; split; [left | done] |].
  exact (field_options_against_report db name n some_collstats docs Hserves
           Hne).
Defined.

(** *** The comparison value of the "Search" tab *)

Section SearchFacts.

Lemma append_cons (c : Ascii.ascii) (a b : string) :
  String c a +:+ b = String c (a +:+ b).
Proof. reflexivity. Qed.

Lemma append_empty_r (s : string) : s +:+ EmptyString = s.
Proof.
  induction s as [|c s IH]; [done |]. by rewrite append_cons, IH.
Qed.

Lemma all_digits_app (a b : string) :
  all_digits (a +:+ b) = all_digits a && all_digits b.
Proof.
  induction a as [|c a IH]; [done |].
  rewrite append_cons. simpl. by rewrite IH, andb_assoc.
Qed.

Lemma replace_first_dot_digits (a : string) :
  all_digits a → replace_first_dot a = a.
Proof.
  induction a as [|c a IH]; simpl; [done |].
  intros [Hc Ha]%andb_prop_elim.
  destruct (Ascii.eqb c _) eqn:Hdot;
    [by apply Ascii.eqb_eq in Hdot as -> |].
  by rewrite IH.
Qed.

Lemma replace_first_dot_app (a b : string) :
  all_digits a → replace_first_dot (a +:+ "." +:+ b) = a +:+ b.
Proof.
  induction a as [|c a IH]; [done |].
  rewrite (append_cons c a ("." +:+ b)), (append_cons c a b). simpl.
  intros [Hc Ha]%andb_prop_elim.
  destruct (Ascii.eqb c _) eqn:Hdot;
    [by apply Ascii.eqb_eq in Hdot as -> |].
  by rewrite IH.
Qed.

Lemma replace_first_dot_inv (v : string) :
  all_digits (replace_first_dot v) →
  all_digits v ∨
  ∃ a b, v = a +:+ "." +:+ b ∧ all_digits a ∧ all_digits b.
Proof.
  induction v as [|c v IH]; simpl; [by left |].
  destruct (Ascii.eqb c _) eqn:Hdot.
  - apply Ascii.eqb_eq in Hdot as ->.
    intros Hv. right. by exists EmptyString, v.
  - simpl. intros [Hd Hv]%andb_prop_elim.
    destruct (IH Hv) as [Hall|(a & b & -> & Ha & Hb)].
    + left. by apply andb_prop_intro.
    + right. exists (String c a), b. split; [done |].
      split; [by apply andb_prop_intro | done].
Qed.

Lemma isdigit_spec (s : string) :
  isdigit s = all_digits s && bool_decide (s ≠ EmptyString).
Proof. destruct s; simpl; [done |]. by rewrite andb_true_r. Qed.

End SearchFacts.

(** "Greater than" and "Less than" compare with a number exactly when the
    value is a run of decimal digits with at most one point in it and at
    least one digit; otherwise they compare with the text, as they do for
    a value with a sign. *)
Theorem numeric_comparison_grammar (v : string) :
  ascii_text v →
  (comparand v = Number v
   ↔ ∃ a b, all_digits a ∧ all_digits b ∧ a +:+ b ≠ EmptyString ∧
            (v = a +:+ b ∨ v = a +:+ "." +:+ b)) ∧
  (comparand v ≠ Number v → comparand v = Text v) ∧
  (∀ w, v = "-" +:+ w ∨ v = "+" +:+ w →
        comparand v = Text v).
Proof.
  intros _.
  assert (Hnum : comparand v = Number v
                 ↔ isdigit (replace_first_dot v) = true).
  { unfold comparand. by destruct (isdigit _). }
  assert (Hgrammar : isdigit (replace_first_dot v) = true
            ↔ ∃ a b, all_digits a ∧ all_digits b ∧ a +:+ b ≠ EmptyString ∧
                     (v = a +:+ b ∨ v = a +:+ "." +:+ b)).
  { rewrite isdigit_spec, andb_true_iff, bool_decide_eq_true. split.
    - intros [Hall%Is_true_true Hne].
      destruct (replace_first_dot_inv v Hall)
        as [Hv|(a & b & -> & Ha & Hb)].
      + exists v, EmptyString. rewrite replace_first_dot_digits in Hne by done.
        rewrite append_empty_r.
        split; [done |]. split; [done |]. split; [done | by left].
      + exists a, b. rewrite replace_first_dot_app in Hne by done.
        do 3 (split; [done |]). by right.
    - intros (a & b & Ha & Hb & Hne & [->| ->]).
      + assert (Hab : all_digits (a +:+ b)).
        { rewrite all_digits_app. by apply andb_prop_intro. }
        rewrite replace_first_dot_digits by done.
        split; [by apply Is_true_true | done].
      + rewrite replace_first_dot_app by done.
        split; [|done]. apply Is_true_true. rewrite all_digits_app.
        by apply andb_prop_intro. }
  split; [by rewrite Hnum |]. split.
  - unfold comparand. by destruct (isdigit _).
  - intros w Hsign. unfold comparand.
    destruct (isdigit (replace_first_dot v)) eqn:Hd; [|done].
    rewrite isdigit_spec in Hd. apply andb_true_iff in Hd as [Hd _].
    by destruct Hsign as [-> | ->].
Qed.

Lemma numeric_comparison_grammar_witness :
  let v := "12.5" in
  ascii_text v ∧
  (comparand v = Number v
   ↔ ∃ a b, all_digits a ∧ all_digits b ∧ a +:+ b ≠ EmptyString ∧
            (v = a +:+ b ∨ v = a +:+ "." +:+ b)) ∧
  (comparand v ≠ Number v → comparand v = Text v) ∧
  (∀ w, v = "-" +:+ w ∨ v = "+" +:+ w →
        comparand v = Text v).
Proof.
  intros v.
  assert (Hascii : ascii_text v) by exact I.
  split; [exact Hascii |].
  exact (numeric_comparison_grammar v Hascii).
Defined.

(** *** The "Export" tab *)

Section ExportFacts.
Context `{builtins : Builtins}.

Lemma presence_take (docs : list document) (field : string) (k : nat) :
  (presence (take k docs) field ≤ presence docs field)%nat.
Proof.
  unfold presence. rewrite <- (take_drop k docs) at 2.
  rewrite filter_app, length_app. lia.
Qed.

Lemma lookup_inclusion (fields : list string) (k : string) :
  inclusion fields !! k = if decide (k ∈ fields) then Some 1 else None.
Proof.
  unfold inclusion. induction fields as [|field fields IH] using rev_ind.
  - by rewrite decide_False by apply not_elem_of_nil.
  - rewrite foldl_app. simpl. destruct (decide (k = field)) as [->|Hne].
    + rewrite lookup_insert. rewrite decide_True by done.
      rewrite decide_True; [done |]. apply elem_of_app. right. by left.
    + rewrite lookup_insert_ne by done. rewrite IH.
      destruct (decide (k ∈ fields)) as [Hin|Hout],
               (decide (k ∈ fields ++ [field])) as [Hin'|Hout']; try done.
      * exfalso. apply Hout', elem_of_app. by left.
      * apply elem_of_app in Hin' as [?|[?|?%elem_of_nil]%elem_of_cons];
          done.
Qed.

Lemma elem_of_remove_first (x : string) (l : list string) (field : string) :
  NoDup l → field ∈ remove_first x l ↔ field ≠ x ∧ field ∈ l.
Proof.
  induction 1 as [|y l Hy Hl IH]; simpl.
  - rewrite elem_of_nil. tauto.
  - destruct (decide (y = x)) as [->|Hne].
    + rewrite elem_of_cons. split; [|tauto].
      intros Hin. split; [by intros -> | by right].
    + rewrite !elem_of_cons, IH. split; [|tauto].
      intros [->|[? ?]]; [split; [done | by left] | split; [done | by right]].
Qed.

Lemma remove_first_nil (x : string) (l : list string) :
  x ∈ l → remove_first x l = [] ↔ l = [x].
Proof.
  destruct l as [|y l]; simpl; [by intros ?%elem_of_nil |].
  intros Hin. destruct (decide (y = x)) as [->|Hne].
  - split; [by intros -> | by intros [= ->]].
  - split; [done | by intros [= -> ->]].
Qed.

End ExportFacts.

(** "Single field (all values)" exports one document per document of
    the collection that holds the field, in order and with that field
    alone.  When the report exists, it counted at most as many documents
    with the field, and as many when the collection has no more than 100
    documents. *)
Theorem single_field_export_against_report `{builtins : Builtins}
    (db : database) (name : string)
    (n : Z) (cs : collstats) (first : document) (rest : list document)
    (find_projected : gmap string Z → result (list document))
    (s : session) (user : selection) (field : string) :
  let docs := first :: rest in
  serves db name n cs docs → first ≠ [] →
  single_field user = Some field → field ≠ "" →
  ∃ exported,
    generate_export (db_collection db name) find_projected s SingleFieldAll
      user = Ok (exported, None) ∧
    exported = (λ value, [(field, value)]) <$> field_values docs field ∧
    (hashable_sample (take 100 docs) →
     ∃ st fa,
       get_detailed_collection_stats db name = Ok st ∧
       field_analysis st = Some fa ∧
       ∀ e, field_coverage fa !! field = Some e →
         (count e ≤ length exported)%nat ∧
         ((length docs ≤ 100)%nat → count e = length exported)).
Proof.
  intros docs Hserves Hfirst Hfield Hname.
  assert (Hhead : head docs = Some first) by done.
  assert (Hne : docs ≠ []) by done.
  clearbody docs.
  assert (Hexport : generate_export (db_collection db name) find_projected s
                      SingleFieldAll user
                    = Ok (single_field_docs field docs, None)).
  { destruct Hserves as (_ & _ & Hdocs).
    unfold generate_export, find_one. rewrite Hdocs. simpl. rewrite Hhead.
    destruct first as [|item first']; [done |]. simpl.
    rewrite Hfield. destruct field; [done |]. simpl. by rewrite Hdocs. }
  eexists. split; [exact Hexport |]. split.
  { unfold single_field_docs, field_values. by rewrite <- list_fmap_compose. }
  intros Hsample.
  destruct (get_detailed_sample db name n cs docs Hserves Hne Hsample)
    as (st & fa & Hst & _ & Hfa & Hdesc).
  exists st, fa. do 2 (split; [done |]).
  intros e He. unfold single_field_docs. rewrite length_fmap.
  fold (presence docs field).
  destruct (described_coverage _ _ Hdesc field) as [Hyes Hno].
  destruct (decide (field ∈ all_fields (take 100 docs) ∧ field ≠ "_id"))
    as [Hin|Hout].
  - destruct (Hyes Hin) as (q & _ & _ & _ & Hentry).
    rewrite Hentry in He. injection He as <-. cbn [count entry]. split.
    + apply (presence_take docs field 100).
    + intros Hlen. by rewrite take_ge.
  - by rewrite (Hno Hout) in He.
Qed.

Lemma single_field_export_against_report_witness :
  let db := serving three_records in
  let name := "c" in
  let first := [("_id", oid "001"); ("a", VInt 1); ("b", VStr "x")] in
  let rest := tail three_records in
  let find_projected := projecting three_records in
  let s := viewing true (counted 3) 2 1 in
  let user := one_field "b" in
  let field := "b" in
  let docs := first :: rest in
  serves db name 3 some_collstats docs ∧
  first ≠ [] ∧
  single_field user = Some field ∧
  field ≠ "" ∧
  hashable_sample (take 100 docs) ∧
  ∃ exported,
    generate_export (db_collection db name) find_projected s SingleFieldAll
      user = Ok (exported, None) ∧
    exported = (λ value, [(field, value)]) <$> field_values docs field ∧
    (hashable_sample (take 100 docs) →
     ∃ st fa,
       get_detailed_collection_stats db name = Ok st ∧
       field_analysis st = Some fa ∧
       ∀ e, field_coverage fa !! field = Some e →
         (count e ≤ length exported)%nat ∧
         ((length docs ≤ 100)%nat → count e = length exported)).
Proof.
  intros db name first rest find_projected s user field docs.
  assert (Hserves : serves db name 3 some_collstats docs).
  { repeat split; reflexivity. }
  assert (Hfirst : first ≠ []) by discriminate.
  assert (Hfield : field ≠ "") by discriminate.
  split; [exact Hserves |]. split; [exact Hfirst |].
  split; [reflexivity |]. split; [exact Hfield |]. split; [exact I |].
  exact (single_field_export_against_report db name 3 some_collstats first
           rest find_projected s user field Hserves Hfirst eq_refl Hfield).
Defined.

(** "Multiple fields (custom selection)" asks for the chosen fields other
    than [_id] with 1 and for [_id] with 1 or 0 as the box is ticked, and
    for no other key; choosing [_id] alone without ticking the box gives
    the warning of an empty choice. *)
Theorem custom_export_projection (collection : collection)
    (find_projected : gmap string Z → result (list document))
    (s : session) (user : selection) (first : document)
    (rest : list document) :
  find collection = Ok (first :: rest) → first ≠ [] →
  NoDup (chosen_fields user) →
  let export :=
    generate_export collection find_projected s MultipleFields user in
  let nothing_chosen :=
    chosen_fields user = [] ∨
    (chosen_fields user = ["_id"] ∧ include_ids user = false) in
  (nothing_chosen →
   export = Ok ([], Some "Please select at least one field to export.")) ∧
  (¬ nothing_chosen →
   ∃ projection,
     export = (find_projected projection ≫= λ docs, Ok (docs, None)) ∧
     projection !! "_id" = Some (if include_ids user then 1 else 0) ∧
     ∀ field, field ≠ "_id" →
       projection !! field
       = if decide (field ∈ chosen_fields user) then Some 1 else None).
Proof.
  intros Hdocs Hfirst Hnodup export nothing_chosen.
  assert (Hexport : export
            = match custom_fields user with
              | [] => Ok ([], Some "Please select at least one field to export.")
              | _ :: _ => find_projected (custom_projection user)
                          ≫= λ docs, Ok (docs, None)
              end).
  { unfold export, generate_export, find_one. rewrite Hdocs. simpl.
    by destruct first. }
  assert (Hfields : ∀ field, field ≠ "_id" →
            field ∈ custom_fields user ↔ field ∈ chosen_fields user).
  { intros field Hne. unfold custom_fields.
    destruct (negb (include_ids user) && bool_decide _); [|done].
    rewrite elem_of_remove_first by done. tauto. }
  assert (Hempty : custom_fields user = [] ↔ nothing_chosen).
  { unfold custom_fields, nothing_chosen.
    destruct (include_ids user); simpl.
    - split; [by left | by intros [?|[_ ?]]].
    - destruct (bool_decide_reflect ("_id" ∈ chosen_fields user))
        as [Hin|Hout].
      + rewrite remove_first_nil by done. split; [by right |].
        intros [Hnil|[? _]]; [|done]. rewrite Hnil in Hin.
        by apply elem_of_nil in Hin.
      + split; [by left |]. intros [?|[Hid _]]; [done |].
        exfalso. apply Hout. rewrite Hid. by left. }
  split.
  - intros Hnothing%Hempty. by rewrite Hexport, Hnothing.
  - intros Hsome. exists (custom_projection user). split.
    + rewrite Hexport. destruct (custom_fields user); [|done].
      exfalso. by apply Hsome, Hempty.
    + unfold custom_projection. split; [by rewrite lookup_insert |].
      intros field Hne. rewrite lookup_insert_ne by done.
      rewrite lookup_inclusion.
      destruct (decide (field ∈ custom_fields user)) as [Hin|Hout],
               (decide (field ∈ chosen_fields user)) as [Hin'|Hout'];
        try done.
      * by apply Hfields in Hin.
      * by apply Hfields in Hin'.
Qed.

Lemma custom_export_projection_witness :
  let collection := db_collection (serving three_records) "c" in
  let find_projected := projecting three_records in
  let s := viewing true (counted 3) 2 1 in
  let user := custom_choice ["_id"; "a"] false in
  let first := [("_id", oid "001"); ("a", VInt 1); ("b", VStr "x")] in
  let rest := tail three_records in
  find collection = Ok (first :: rest) ∧
  first ≠ [] ∧
  NoDup (chosen_fields user) ∧
  let export :=
    generate_export collection find_projected s MultipleFields user in
  let nothing_chosen :=
    chosen_fields user = [] ∨
    (chosen_fields user = ["_id"] ∧ include_ids user = false) in
  (nothing_chosen →
   export = Ok ([], Some "Please select at least one field to export.")) ∧
  (¬ nothing_chosen →
   ∃ projection,
     export = (find_projected projection ≫= λ docs, Ok (docs, None)) ∧
     projection !! "_id" = Some (if include_ids user then 1 else 0) ∧
     ∀ field, field ≠ "_id" →
       projection !! field
       = if decide (field ∈ chosen_fields user) then Some 1 else None).
Proof.
  intros collection find_projected s user first rest.
  assert (Hfirst : first ≠ []) by discriminate.
  assert (Hchosen : NoDup (chosen_fields user)).
  { exact (bool_decide_unpack (NoDup (chosen_fields user)) I). }
  split; [reflexivity |]. split; [exact Hfirst |]. split; [exact Hchosen |].
  exact (custom_export_projection collection find_projected s user first
           rest eq_refl Hfirst Hchosen).
Defined.

(** "Current view" exports the documents that the "View Data" tab has
    drawn in the same run. *)
Theorem current_view_export_is_the_page (collection : collection)
    (find_projected : gmap string Z → result (list document))
    (s s' : session) (click : option button) (user : selection)
    (docs : list document) (page_label : option string) :
  view_data collection click s = (s', Drawn docs page_label) →
  s' = s ∧
  generate_export collection find_projected s' CurrentView user
  = Ok (docs, None).
Proof.
  intros Hview. unfold view_data in Hview.
  destruct (cursor_limit _ _) as [page|e] eqn:Hpage; [|done].
  assert (Hfind : ∃ all, find collection = Ok all).
  { unfold cursor_limit, cursor_skip in Hpage.
    destruct (_ <? 0); [done |].
    destruct (find collection) as [all|e]; [by exists all | done]. }
  destruct Hfind as [all Hfind].
  assert (Hdrawn : s' = s ∧ page = docs).
  { destruct page as [|doc page]; [by injection Hview as <- <- |].
    destruct (pressed PreviousPage click && _); [done |].
    destruct (stats_binding s); [|done].
    destruct (floordiv _ _); [|done].
    destruct (pressed NextPage click); [done |].
    by injection Hview as <- <-. }
  destruct Hdrawn as [-> ->]. split; [done |].
  unfold generate_export, find_one, docs_to_export.
  rewrite Hfind. simpl. by rewrite <- Hfind, Hpage.
Qed.

Lemma current_view_export_is_the_page_witness :
  let collection := db_collection (serving three_records) "c" in
  let find_projected := projecting three_records in
  let s := viewing true (counted 3) 2 1 in
  let s' := s in
  let click := None in
  let user := one_field "b" in
  let docs := take 2 three_records in
  let page_label := Some "Page 1 of 2" in
  view_data collection click s = (s', Drawn docs page_label) ∧
  s' = s ∧
  generate_export collection find_projected s' CurrentView user
  = Ok (docs, None).
Proof.
  intros collection find_projected s s' click user docs page_label.
  assert (Hview : view_data collection click s
                  = (s', Drawn docs page_label)).
  { vm_compute. reflexivity. }
  split; [exact Hview |].
  exact (current_view_export_is_the_page collection find_projected s s'
           click user docs page_label Hview).
Defined.
